(** * biclustpy: the strategy selector and the orchestrator of [main.py]

    A shallow embedding of [biclustpy/main.py]: the class [Algorithm]
    (constructor, [use_ilp], [use_ch], [run]) and the function
    [compute_bi_clusters].  Python's effects are made explicit: a state
    holds the text printed so far, the hidden state of the two solvers
    (clock, random generator) and a log of the solver invocations;
    exceptions are the left summand of the result. *)

From Stdlib Require Import List Bool Arith Lia String Ascii.
From Stdlib Require Import ZArith QArith Permutation DecimalString.
Import ListNotations.
Open Scope string_scope.
Open Scope nat_scope.

Set Implicit Arguments.

(** ** Data *)

(** A [networkx.Graph] as far as [main.py] looks at it: the node view and
    the edge view, both iterated in order.  Node ids are the integers of
    [range(num_rows + num_cols)]. *)
Record graph : Type := Graph {
  nodes : list nat;
  edges : list (nat * nat)
}.

(** A two-dimensional [numpy.array]: its shape and its entries. *)
Record ndarray (A : Type) : Type := NdArray {
  shape0 : nat;
  shape1 : nat;
  entries : list (list A)
}.

(** Python exceptions; [main.py] only raises the base class with a message. *)
Inductive exn : Type :=
| Exception (msg : string).

(** The attributes of an [Algorithm] object. *)
Record Algorithm : Type := MkAlgorithm {
  algorithm_name : string;
  ilp_time_limit : Q;
  ilp_tune : bool;
  ch_alpha : Q;
  ch_seed : option Z
}.

(** A bi-cluster: the list of rows and the list of columns. *)
Definition bi_cluster : Type := (list nat * list nat)%type.

(** ** Text *)

Definition quote : string := String "034"%char EmptyString.
Definition newline : string := String "010"%char EmptyString.

Fixpoint replicate (n : nat) (c : ascii) : string :=
  match n with
  | O => EmptyString
  | S k => String c (replicate k c)
  end.

Definition rule_double : string := replicate 78 "="%char.
Definition rule_single : string := replicate 78 "-"%char.

(** [str] on the values that are printed. *)
Definition str_nat (n : nat) : string := NilEmpty.string_of_uint (Nat.to_uint n).
Definition str_bool (b : bool) : string := if b then "True" else "False".

Fixpoint join (sep : string) (l : list string) : string :=
  match l with
  | [] => ""
  | [x] => x
  | x :: rest => x ++ sep ++ join sep rest
  end.

(** [str(component.nodes)] and [str(component.edges)] of a networkx graph:
    the list of the nodes and the list of the pairs. *)
Definition str_nodes (l : list nat) : string :=
  "[" ++ join ", " (map str_nat l) ++ "]".
Definition str_edge (e : nat * nat) : string :=
  "(" ++ str_nat (fst e) ++ ", " ++ str_nat (snd e) ++ ")".
Definition str_edges (l : list (nat * nat)) : string :=
  "[" ++ join ", " (map str_edge l) ++ "]".

(** ** The [Algorithm] class *)

(** [Algorithm.__init__] *)
Definition Algorithm_init : Algorithm :=
  {| algorithm_name := "ILP";
     ilp_time_limit := 60;
     ilp_tune := false;
     ch_alpha := 1;
     ch_seed := None |}.

(** [Algorithm.use_ilp]: the object after the call. *)
Definition use_ilp (self : Algorithm) (time_limit : Q) (tune : bool) : Algorithm :=
  {| algorithm_name := "ILP";
     ilp_time_limit := time_limit;
     ilp_tune := tune;
     ch_alpha := ch_alpha self;
     ch_seed := ch_seed self |}.

(** [Algorithm.use_ch]: the object after the call. *)
Definition use_ch (self : Algorithm) (alpha : Q) (seed : option Z) : Algorithm :=
  {| algorithm_name := "CH";
     ilp_time_limit := ilp_time_limit self;
     ilp_tune := ilp_tune self;
     ch_alpha := alpha;
     ch_seed := seed |}.

(** The default arguments [time_limit = 60, tune = False] and
    [alpha = 1.0, seed = None]. *)
Definition use_ilp_default (self : Algorithm) : Algorithm := use_ilp self 60 false.
Definition use_ch_default (self : Algorithm) : Algorithm := use_ch self 1 None.

(** ** The graph helpers *)

Module Helpers.

(** Modelled from the spec: [helpers.is_row], [helpers.is_col] and
    [helpers.node_to_col] of the absent [helpers.py].  A node is a row iff
    its id is below the row count, and a column node is mapped back to
    [0..m-1] by the offset.  [node_to_col] is only called on column nodes,
    where the truncated subtraction is the exact one. *)
Definition is_row (node num_rows : nat) : bool := node <? num_rows.
Definition is_col (node num_rows : nat) : bool := num_rows <=? node.
Definition node_to_col (node num_rows : nat) : nat := node - num_rows.

Definition mem (v : nat) (l : list nat) : bool := existsb (Nat.eqb v) l.

Definition entry (w : ndarray Q) (i k : nat) : Q :=
  nth k (nth i (entries w) []) 0%Q.

Definition positive (q : Q) : bool := negb (Qle_bool q 0).

(** Modelled from the spec: [helpers.build_graph_from_weights] of the
    absent [helpers.py]: the graph on the given nodes with an edge between
    row [i] and the node of column [k] for every entry [w[i][k] > 0] whose
    two ends are among the nodes. *)
Definition build_graph_from_weights (w : ndarray Q) (node_ids : list nat) : graph :=
  {| nodes := node_ids;
     edges :=
       flat_map (fun i =>
         flat_map (fun k =>
           if positive (entry w i k) && mem i node_ids && mem (shape0 w + k) node_ids
           then [(i, shape0 w + k)] else [])
           (seq 0 (shape1 w)))
         (seq 0 (shape0 w)) |}.

Definition touches (e : nat * nat) (c : list nat) : bool :=
  mem (fst e) c || mem (snd e) c.

(** The classes that an edge joins are merged into the first of them. *)
Fixpoint merge_classes (e : nat * nat) (classes : list (list nat)) : list (list nat) :=
  match classes with
  | [] => []
  | c :: rest =>
      if touches e c then
        (c ++ List.concat (filter (touches e) rest))%list
          :: filter (fun d => negb (touches e d)) rest
      else c :: merge_classes e rest
  end.

Definition node_classes (g : graph) : list (list nat) :=
  fold_left (fun classes e => merge_classes e classes) (edges g)
            (map (fun v => [v]) (nodes g)).

Definition induced (g : graph) (c : list nat) : graph :=
  {| nodes := c;
     edges := filter (fun e => mem (fst e) c && mem (snd e) c) (edges g) |}.

(** Modelled from the spec: [helpers.connected_components] of the absent
    [helpers.py]: one induced subgraph per connected component, in the
    order of the components' first nodes. *)
Definition connected_components (g : graph) : list graph :=
  map (induced g) (node_classes g).

Definition has_edge (g : graph) (u v : nat) : bool :=
  existsb (fun e => (Nat.eqb (fst e) u && Nat.eqb (snd e) v)
                    || (Nat.eqb (fst e) v && Nat.eqb (snd e) u)) (edges g).

(** Modelled from the spec: [helpers.is_bi_clique] of the absent
    [helpers.py]: every row node of the subgraph is adjacent to every
    column node of the subgraph, and no edge of the subgraph leaves its
    node set. *)
Definition is_bi_clique (g : graph) (num_rows : nat) : bool :=
  forallb (fun r =>
    forallb (fun c => has_edge g r c)
            (filter (fun v => is_col v num_rows) (nodes g)))
    (filter (fun v => is_row v num_rows) (nodes g))
  && forallb (fun e => mem (fst e) (nodes g) && mem (snd e) (nodes g)) (edges g).

End Helpers.

(** ** Saving the result *)

(** The files as [save_bi_clusters_as_xml] sees them: the text each name
    holds, and whether [open(name, "w")] succeeds on it. *)
Record file_system : Type := FileSystem {
  contents : string -> option string;
  can_open : string -> bool
}.

Inductive io_exn : Type :=
| OSError (filename : string).

Definition set_contents (filename data : string) (fs : file_system) : file_system :=
  {| contents := fun f => if String.eqb f filename then Some data else contents fs f;
     can_open := can_open fs |}.

(** [open(filename, "w")]: the file is created or truncated. *)
Definition open_w (filename : string) (fs : file_system) : io_exn + file_system :=
  if can_open fs filename then inr (set_contents filename "" fs)
  else inl (OSError filename).

(** [xml_file.write(data)] on the file opened under [filename]; the
    following [xml_file.close()] leaves the text as written. *)
Definition file_write (filename data : string) (fs : file_system) : file_system :=
  match contents fs filename with
  | Some old => set_contents filename (old ++ data) fs
  | None => fs
  end.

Section Serializer.

(** [helpers.build_element_tree] and [helpers.prettify] of the absent
    [helpers.py], at their interface. *)
Variable cost : Type.
Variable element : Type.
Variable build_element_tree : list bi_cluster -> cost -> bool -> string -> element.
Variable prettify : element -> string.

Definition save_bi_clusters_as_xml (filename : string) (bi_clusters : list bi_cluster)
    (obj_val : cost) (is_optimal : bool) (instance : string) (fs : file_system)
    : io_exn + file_system :=
  let elem_tree := build_element_tree bi_clusters obj_val is_optimal instance in
  match open_w filename fs with
  | inl e => inl e
  | inr fs1 => inr (file_write filename (prettify elem_tree) fs1)
  end.

End Serializer.

(** ** Instances and stand-in solvers for the concrete statements *)

Module Fixtures.

(** [[1, -1], [-1, 1]]: two disjoint 1x1 bi-cliques. *)
Definition w_diag : ndarray Q :=
  {| shape0 := 2; shape1 := 2; entries := [[1; -1]; [-1; 1]]%Q |}.

(** [[1, 1], [1, -1]]: one connected component that is not a bi-clique. *)
Definition w_path : ndarray Q :=
  {| shape0 := 2; shape1 := 2; entries := [[1; 1]; [1; -1]]%Q |}.

(** The graph of [w_path]: rows 0 and 1, columns 0 and 1 as nodes 2 and 3. *)
Definition g_path : graph :=
  {| nodes := [0; 2; 3; 1]; edges := [(0, 2); (0, 3); (1, 2)] |}.

(** [[-1]]: a lone row and a lone column. *)
Definition w_lone : ndarray Q :=
  {| shape0 := 1; shape1 := 1; entries := [[-1]]%Q |}.

Definition edge_weight (w : ndarray Q) (e : nat * nat) : Q :=
  Helpers.entry w (fst e) (Helpers.node_to_col (snd e) (shape0 w)).

(** A solver that deletes every edge of the subgraph and never claims
    optimality; the hidden state counts the invocations. *)
Definition drop_edges (w : ndarray Q) (g : graph) (world : nat)
    : (graph * Q * bool) * nat :=
  (({| nodes := nodes g; edges := [] |},
    fold_left Qplus (map (edge_weight w) (edges g)) 0%Q,
    false),
   S world).

(** A solver that breaks its contract: it returns the subgraph as it is
    and claims optimality. *)
Definition keep_all (w : ndarray Q) (g : graph) (world : nat)
    : (graph * Q * bool) * nat :=
  ((g, 0%Q, true), S world).

Definition ilp_drop (w : ndarray Q) (g : graph) (t : Q) (tune : bool) :=
  drop_edges w g.
Definition ch_drop (w : ndarray Q) (g : graph) (alpha : Q) (seed : option Z) :=
  drop_edges w g.
Definition ilp_keep (w : ndarray Q) (g : graph) (t : Q) (tune : bool) :=
  keep_all w g.
Definition ch_keep (w : ndarray Q) (g : graph) (alpha : Q) (seed : option Z) :=
  keep_all w g.

(** A stand-in for [str] on the objective value. *)
Definition str_Q (q : Q) : string :=
  NilEmpty.string_of_int (Z.to_int (Qnum q)) ++ "/"
    ++ NilEmpty.string_of_uint (Pos.to_uint (Qden q)).

(** A selector whose name is neither variant. *)
Definition bad_algorithm : Algorithm :=
  {| algorithm_name := "XYZ"; ilp_time_limit := 60; ilp_tune := false;
     ch_alpha := 1; ch_seed := None |}.

(** Two copies of the path instance side by side: two components, neither
    a bi-clique. *)
Definition w_two_paths : ndarray Q :=
  {| shape0 := 4; shape1 := 4;
     entries := [[1; 1; -1; -1]; [1; -1; -1; -1];
                 [-1; -1; 1; 1]; [-1; -1; 1; -1]]%Q |}.

(** A selector whose name differs from a variant only in case. *)
Definition lower_case_algorithm : Algorithm :=
  {| algorithm_name := "ilp"; ilp_time_limit := 60; ilp_tune := false;
     ch_alpha := 1; ch_seed := None |}.

(** Stand-ins for the element tree and its text. *)
Definition tree_of (bcs : list bi_cluster) (obj : Q) (opt : bool) (instance : string)
    : list bi_cluster * Q * bool * string :=
  (bcs, obj, opt, instance).
Definition text_of (t : list bi_cluster * Q * bool * string) : string :=
  snd t ++ ": " ++ str_Q (snd (fst (fst t))) ++ " " ++ str_bool (snd (fst t)).

(** A file system with one file, where every name but [locked] can be
    opened for writing. *)
Definition one_file : file_system :=
  {| contents := fun f => if String.eqb f "old.xml" then Some "previous text" else None;
     can_open := fun f => negb (String.eqb f "locked") |}.

End Fixtures.

Section Orchestrator.

(** The entries of the weight matrix, the objective values (Python
    floats, added left to right starting from the integer [0]) and the
    hidden state of the solvers. *)
Variable weight : Type.
Variable cost : Type.
Variable cost_zero : cost.
Variable cost_add : cost -> cost -> cost.
Variable str_cost : cost -> string.
Variable world : Type.

Definition weights : Type := ndarray weight.
Definition solution : Type := (graph * cost * bool)%type.

(** The solvers of the absent modules [ilp.py] and [ch.py], at their
    interface: [ilp.run(weights, subgraph, time_limit, tune)] and
    [ch.run(weights, subgraph, alpha, seed)]. *)
Variable ilp_run : weights -> graph -> Q -> bool -> world -> solution * world.
Variable ch_run : weights -> graph -> Q -> option Z -> world -> solution * world.

(** The graph helpers of the absent [helpers.py], at their interface. *)
Variable build_graph_from_weights : weights -> list nat -> graph.
Variable connected_components : graph -> list graph.
Variable is_bi_clique : graph -> nat -> bool.

(** One invocation of a solver, as logged. *)
Inductive call : Type :=
| CallILP (w : weights) (g : graph) (time_limit : Q) (tune : bool) (r : solution)
| CallCH (w : weights) (g : graph) (alpha : Q) (seed : option Z) (r : solution).

Record state : Type := State {
  stdout : list string;
  calls : list call;
  env : world
}.

(** Computations that print, call solvers and may raise. *)
Definition M (A : Type) : Type := state -> (exn + A) * state.

Definition ret {A} (a : A) : M A := fun s => (inr a, s).
Definition raise {A} (e : exn) : M A := fun s => (inl e, s).
Definition bind {A B} (m : M A) (k : A -> M B) : M B :=
  fun s => match m s with
           | (inl e, s') => (inl e, s')
           | (inr a, s') => k a s'
           end.

Notation "x <- m ;; k" := (bind m (fun x => k))
  (at level 61, m at next level, right associativity).
Notation "m ;;; k" := (bind m (fun _ => k))
  (at level 61, right associativity).

Definition print (line : string) : M unit :=
  fun s => (inr tt, {| stdout := stdout s ++ [line];
                       calls := calls s;
                       env := env s |}).

Definition call_ilp (w : weights) (g : graph) (t : Q) (tune : bool) : M solution :=
  fun s => let (r, e') := ilp_run w g t tune (env s) in
           (inr r, {| stdout := stdout s;
                      calls := calls s ++ [CallILP w g t tune r];
                      env := e' |}).

Definition call_ch (w : weights) (g : graph) (alpha : Q) (seed : option Z) : M solution :=
  fun s => let (r, e') := ch_run w g alpha seed (env s) in
           (inr r, {| stdout := stdout s;
                      calls := calls s ++ [CallCH w g alpha seed r];
                      env := e' |}).

Definition invalid_name_msg (name : string) : string :=
  "Invalid algorithm name " ++ quote ++ name ++ quote
    ++ ". Options: " ++ quote ++ "ILP" ++ quote ++ ", " ++ quote ++ "CH" ++ quote ++ ".".

(** [Algorithm.run] *)
Definition run (self : Algorithm) (w : weights) (subgraph : graph) : M solution :=
  if String.eqb (algorithm_name self) "ILP" then
    call_ilp w subgraph (ilp_time_limit self) (ilp_tune self)
  else if String.eqb (algorithm_name self) "CH" then
    call_ch w subgraph (ch_alpha self) (ch_seed self)
  else
    raise (Exception (invalid_name_msg (algorithm_name self))).

(** *** [compute_bi_clusters] *)

(** The body of [for node in component.nodes], on the pair of lists
    [bi_cluster = ([], [])]. *)
Definition add_node (num_rows : nat) (bc : bi_cluster) (node : nat) : bi_cluster :=
  if Helpers.is_row node num_rows then ((fst bc ++ [node])%list, snd bc)
  else (fst bc, (snd bc ++ [Helpers.node_to_col node num_rows])%list).

Definition make_bi_cluster (component : graph) (num_rows : nat) : bi_cluster :=
  fold_left (add_node num_rows) (nodes component) ([], []).

(** The first loop: a component that is a bi-clique gives a bi-cluster,
    any other one is appended to [subgraphs]. *)
Definition classify_step (num_rows : nat)
    (acc : list bi_cluster * list graph) (component : graph)
    : list bi_cluster * list graph :=
  if is_bi_clique component num_rows then
    ((fst acc ++ [make_bi_cluster component num_rows])%list, snd acc)
  else
    (fst acc, (snd acc ++ [component])%list).

Definition classify (num_rows : nat) (components : list graph)
    : list bi_cluster * list graph :=
  fold_left (classify_step num_rows) components ([], []).

Definition not_bi_clique_msg (component : graph) : string :=
  "Subgraph should be bi-clique but isn't."
    ++ newline ++ "Nodes: " ++ str_nodes (nodes component)
    ++ newline ++ "Edges: " ++ str_edges (edges component).

(** The loop over the components of a solver's result. *)
Fixpoint check_components (num_rows : nat) (components : list graph)
    (bi_clusters : list bi_cluster) : M (list bi_cluster) :=
  match components with
  | [] => ret bi_clusters
  | component :: rest =>
      if negb (is_bi_clique component num_rows) then
        raise (Exception (not_bi_clique_msg component))
      else
        check_components num_rows rest
          (bi_clusters ++ [make_bi_cluster component num_rows])%list
  end.

(** The variables of the second loop. *)
Record progress : Type := Progress {
  bi_clusters : list bi_cluster;
  obj_val : cost;
  is_optimal : bool;
  counter : nat
}.

(** The loop [for subgraph in subgraphs]; [total] is [len(subgraphs)]. *)
Fixpoint solve_subgraphs (algorithm : Algorithm) (w : weights) (num_rows total : nat)
    (subgraphs : list graph) (p : progress) : M progress :=
  match subgraphs with
  | [] => ret p
  | subgraph :: rest =>
      let counter' := counter p + 1 in
      print (newline ++ rule_double) ;;;
      print ("Solving subproblem " ++ str_nat counter' ++ " of " ++ str_nat total ++ ".") ;;;
      print rule_single ;;;
      let n := List.length (filter (fun node => Helpers.is_row node num_rows) (nodes subgraph)) in
      let m := List.length (filter (fun node => Helpers.is_col node num_rows) (nodes subgraph)) in
      print ("Dimension: " ++ str_nat n ++ " x " ++ str_nat m) ;;;
      r <- run algorithm w subgraph ;;
      let '(bi_transitive_subgraph, local_obj_val, local_is_optimal) := r in
      let obj_val' := cost_add (obj_val p) local_obj_val in
      let is_optimal' := is_optimal p && local_is_optimal in
      bcs <- check_components num_rows
               (connected_components bi_transitive_subgraph) (bi_clusters p) ;;
      print rule_double ;;;
      solve_subgraphs algorithm w num_rows total rest
        {| bi_clusters := bcs; obj_val := obj_val';
           is_optimal := is_optimal'; counter := counter' |}
  end.

(** [range(num_rows + num_cols)] *)
Definition node_range (w : weights) : list nat := seq 0 (shape0 w + shape1 w).

Definition compute_bi_clusters (w : weights) (algorithm : Algorithm)
    : M (list bi_cluster * cost * bool) :=
  let num_rows := shape0 w in
  let g := build_graph_from_weights w (node_range w) in
  let components := connected_components g in
  let '(bcs, subgraphs) := classify num_rows components in
  print (newline ++ rule_double) ;;;
  print "Finished pre-processing." ;;;
  print rule_single ;;;
  print ("Number of connected components: " ++ str_nat (List.length components)) ;;;
  print ("Number of bi-cliques: " ++ str_nat (List.length bcs)) ;;;
  print rule_double ;;;
  p <- solve_subgraphs algorithm w num_rows (List.length subgraphs) subgraphs
         {| bi_clusters := bcs; obj_val := cost_zero;
            is_optimal := true; counter := 0 |} ;;
  print (newline ++ rule_double) ;;;
  print "Finished computation of bi-clusters." ;;;
  print rule_single ;;;
  print ("Objective value: " ++ str_cost (obj_val p)) ;;;
  print ("Is optimal: " ++ str_bool (is_optimal p)) ;;;
  print ("Number of bi-clusters: " ++ str_nat (List.length (bi_clusters p))) ;;;
  print rule_double ;;;
  ret (bi_clusters p, obj_val p, is_optimal p).

(** *** Notions the statements use *)

(** The connected components of the instance's graph, and those of them
    that the first loop queues for the solver. *)
Definition instance_components (w : weights) : list graph :=
  connected_components (build_graph_from_weights w (node_range w)).

Definition hard_subgraphs (w : weights) : list graph :=
  snd (classify (shape0 w) (instance_components w)).

(** [algorithm.run] on each subgraph in turn, nothing else in between. *)
Fixpoint run_all (algorithm : Algorithm) (w : weights) (subgraphs : list graph)
    : M (list solution) :=
  match subgraphs with
  | [] => ret []
  | subgraph :: rest =>
      r <- run algorithm w subgraph ;;
      rs <- run_all algorithm w rest ;;
      ret (r :: rs)
  end.

Definition sol_graph (r : solution) : graph := fst (fst r).
Definition sol_cost (r : solution) : cost := snd (fst r).
Definition sol_is_optimal (r : solution) : bool := snd r.

(** The components of the returned subgraphs, in the order the second
    loop meets them. *)
Definition returned_components (results : list solution) : list graph :=
  flat_map (fun r => connected_components (sol_graph r)) results.

(** The first component that fails the check, if any. *)
Definition first_failing (num_rows : nat) (components : list graph) : option graph :=
  find (fun c => negb (is_bi_clique c num_rows)) components.

(** Two states that differ at most in the printed text. *)
Definition same_solver_view (s1 s2 : state) : Prop :=
  calls s1 = calls s2 /\ env s1 = env s2.

(** [s] with some more lines printed. *)
Definition add_output (lines : list string) (s : state) : state :=
  {| stdout := (stdout s ++ lines)%list; calls := calls s; env := env s |}.

Definition valid_name (name : string) : Prop := name = "ILP" \/ name = "CH".

(** The rows and the columns of a component, as the result lists them. *)
Definition rows_of (num_rows : nat) (c : graph) : list nat :=
  filter (fun v => Helpers.is_row v num_rows) (nodes c).
Definition cols_of (num_rows : nat) (c : graph) : list nat :=
  map (fun v => Helpers.node_to_col v num_rows)
      (filter (fun v => negb (Helpers.is_row v num_rows)) (nodes c)).

(** What the loops print. *)
Definition subproblem_header (num_rows total : nat) (p : progress) (subgraph : graph)
    : list string :=
  [ newline ++ rule_double;
    "Solving subproblem " ++ str_nat (counter p + 1) ++ " of " ++ str_nat total ++ ".";
    rule_single;
    "Dimension: "
      ++ str_nat (List.length (filter (fun node => Helpers.is_row node num_rows)
                                      (nodes subgraph)))
      ++ " x "
      ++ str_nat (List.length (filter (fun node => Helpers.is_col node num_rows)
                                      (nodes subgraph))) ].

Definition preprocessing_report (components : list graph) (bcs : list bi_cluster)
    : list string :=
  [ newline ++ rule_double;
    "Finished pre-processing.";
    rule_single;
    "Number of connected components: " ++ str_nat (List.length components);
    "Number of bi-cliques: " ++ str_nat (List.length bcs);
    rule_double ].

Definition final_report (p : progress) : list string :=
  [ newline ++ rule_double;
    "Finished computation of bi-clusters.";
    rule_single;
    "Objective value: " ++ str_cost (obj_val p);
    "Is optimal: " ++ str_bool (is_optimal p);
    "Number of bi-clusters: " ++ str_nat (List.length (bi_clusters p));
    rule_double ].

(** The bi-clusters of the components found to be bi-cliques by the first
    loop, and the variables of the second loop when it starts. *)
Definition trivial_bi_clusters (w : weights) : list bi_cluster :=
  map (fun c => make_bi_cluster c (shape0 w))
      (filter (fun c => is_bi_clique c (shape0 w)) (instance_components w)).

Definition initial_progress (w : weights) : progress :=
  {| bi_clusters := trivial_bi_clusters w; obj_val := cost_zero;
     is_optimal := true; counter := 0 |}.

(** ** Auxiliary facts *)

Lemma same_solver_view_trans s1 s2 s3 :
  same_solver_view s1 s2 -> same_solver_view s2 s3 -> same_solver_view s1 s3.
Proof. intros [H1 H2] [H3 H4]; split; congruence. Qed.

Lemma add_output_view lines s : same_solver_view (add_output lines s) s.
Proof. split; reflexivity. Qed.

Lemma add_output_add_output l1 l2 s :
  add_output l2 (add_output l1 s) = add_output (l1 ++ l2) s.
Proof. unfold add_output; simpl. now rewrite app_assoc. Qed.

Lemma bind_print {A} line (k : M A) s :
  (print line ;;; k) s = k (add_output [line] s).
Proof. reflexivity. Qed.

(** *** The bi-cluster of a component *)

Lemma fold_add_node num_rows l : forall rows cols,
  fold_left (add_node num_rows) l (rows, cols) =
  ((rows ++ filter (fun v => Helpers.is_row v num_rows) l)%list,
   (cols ++ map (fun v => Helpers.node_to_col v num_rows)
             (filter (fun v => negb (Helpers.is_row v num_rows)) l))%list).
Proof.
  induction l as [|v l IH]; intros rows cols; simpl.
  - now rewrite !app_nil_r.
  - unfold add_node at 2. destruct (Helpers.is_row v num_rows); simpl;
      rewrite IH, <- app_assoc; reflexivity.
Qed.

Lemma make_bi_cluster_eq c num_rows :
  make_bi_cluster c num_rows = (rows_of num_rows c, cols_of num_rows c).
Proof. unfold make_bi_cluster. now rewrite fold_add_node. Qed.

(** *** The first loop *)

Lemma fold_classify num_rows cs : forall bcs gs,
  fold_left (classify_step num_rows) cs (bcs, gs) =
  ((bcs ++ map (fun c => make_bi_cluster c num_rows)
             (filter (fun c => is_bi_clique c num_rows) cs))%list,
   (gs ++ filter (fun c => negb (is_bi_clique c num_rows)) cs)%list).
Proof.
  induction cs as [|c cs IH]; intros bcs gs; simpl.
  - now rewrite !app_nil_r.
  - unfold classify_step at 2. destruct (is_bi_clique c num_rows); simpl;
      rewrite IH, <- app_assoc; reflexivity.
Qed.

Lemma classify_eq num_rows cs :
  classify num_rows cs =
  (map (fun c => make_bi_cluster c num_rows)
       (filter (fun c => is_bi_clique c num_rows) cs),
   filter (fun c => negb (is_bi_clique c num_rows)) cs).
Proof. unfold classify. now rewrite fold_classify. Qed.

Lemma hard_subgraphs_eq w :
  hard_subgraphs w =
  filter (fun c => negb (is_bi_clique c (shape0 w))) (instance_components w).
Proof. unfold hard_subgraphs. now rewrite classify_eq. Qed.

(** *** The check of a returned subgraph *)

Lemma check_components_eq num_rows cs : forall bcs s,
  check_components num_rows cs bcs s =
  match first_failing num_rows cs with
  | Some c => (inl (Exception (not_bi_clique_msg c)), s)
  | None => (inr (bcs ++ map (fun c => make_bi_cluster c num_rows) cs)%list, s)
  end.
Proof.
  unfold first_failing.
  induction cs as [|c cs IH]; intros bcs s; simpl.
  - now rewrite app_nil_r.
  - destruct (is_bi_clique c num_rows); simpl.
    + rewrite IH. destruct (find _ cs); [reflexivity|].
      now rewrite <- app_assoc.
    + reflexivity.
Qed.

Lemma first_failing_app num_rows l1 l2 :
  first_failing num_rows (l1 ++ l2) =
  match first_failing num_rows l1 with
  | Some c => Some c
  | None => first_failing num_rows l2
  end.
Proof.
  unfold first_failing. induction l1 as [|c l1 IH]; simpl; [reflexivity|].
  destruct (negb (is_bi_clique c num_rows)); [reflexivity|exact IH].
Qed.

Lemma first_failing_none num_rows l :
  first_failing num_rows l = None <->
  forallb (fun c => is_bi_clique c num_rows) l = true.
Proof.
  unfold first_failing. induction l as [|c l IH]; simpl; [tauto|].
  destruct (is_bi_clique c num_rows); simpl; [exact IH|].
  split; discriminate.
Qed.

Lemma first_failing_some num_rows l c :
  first_failing num_rows l = Some c ->
  In c l /\ is_bi_clique c num_rows = false.
Proof.
  unfold first_failing. intros H. apply find_some in H as [H1 H2].
  split; [exact H1|]. now destruct (is_bi_clique c num_rows).
Qed.

(** *** [run] *)

Lemma run_invalid alg w g s :
  ~ valid_name (algorithm_name alg) ->
  run alg w g s = (inl (Exception (invalid_name_msg (algorithm_name alg))), s).
Proof.
  intros H. unfold run.
  destruct (String.eqb_spec (algorithm_name alg) "ILP") as [E|_].
  - exfalso; apply H; now left.
  - destruct (String.eqb_spec (algorithm_name alg) "CH") as [E|_].
    + exfalso; apply H; now right.
    + reflexivity.
Qed.

Lemma run_valid alg w g s :
  valid_name (algorithm_name alg) ->
  exists r s', run alg w g s = (inr r, s').
Proof.
  intros [E|E]; unfold run; rewrite E; simpl.
  - unfold call_ilp. destruct (ilp_run _ _ _ _ _) as [r e']. eauto.
  - unfold call_ch. destruct (ch_run _ _ _ _ _) as [r e']. eauto.
Qed.

Lemma run_frame alg w g s1 s2 :
  same_solver_view s1 s2 ->
  fst (run alg w g s1) = fst (run alg w g s2) /\
  same_solver_view (snd (run alg w g s1)) (snd (run alg w g s2)) /\
  stdout (snd (run alg w g s1)) = stdout s1.
Proof.
  intros [Hc He]. unfold run.
  destruct (String.eqb (algorithm_name alg) "ILP").
  - unfold call_ilp. rewrite He, Hc.
    destruct (ilp_run _ _ _ _ _) as [r e']. simpl.
    repeat split.
  - destruct (String.eqb (algorithm_name alg) "CH").
    + unfold call_ch. rewrite He, Hc.
      destruct (ch_run _ _ _ _ _) as [r e']. simpl.
      repeat split.
    + simpl. repeat split; assumption.
Qed.

Lemma run_all_cons alg w g rest s :
  run_all alg w (g :: rest) s =
  match run alg w g s with
  | (inl e, s') => (inl e, s')
  | (inr r, s') =>
      match run_all alg w rest s' with
      | (inl e, s'') => (inl e, s'')
      | (inr rs, s'') => (inr (r :: rs), s'')
      end
  end.
Proof.
  simpl. unfold bind. destruct (run alg w g s) as [[e|r] s']; [reflexivity|].
  destruct (run_all alg w rest s') as [[e|rs] s'']; reflexivity.
Qed.

Lemma run_all_valid alg w :
  valid_name (algorithm_name alg) ->
  forall gs s, exists results s', run_all alg w gs s = (inr results, s').
Proof.
  intros Hv. induction gs as [|g gs IH]; intros s.
  - exists [], s. reflexivity.
  - rewrite run_all_cons.
    destruct (run_valid alg w g s Hv) as (r & s' & ->).
    destruct (IH s') as (rs & s'' & ->). eauto.
Qed.

(** *** The second loop *)

Lemma solve_subgraphs_cons alg w num_rows total g rest p s :
  solve_subgraphs alg w num_rows total (g :: rest) p s =
  match run alg w g (add_output (subproblem_header num_rows total p g) s) with
  | (inl e, s') => (inl e, s')
  | (inr r, s') =>
      match check_components num_rows (connected_components (sol_graph r))
              (bi_clusters p) s' with
      | (inl e, s'') => (inl e, s'')
      | (inr bcs, s'') =>
          solve_subgraphs alg w num_rows total rest
            {| bi_clusters := bcs;
               obj_val := cost_add (obj_val p) (sol_cost r);
               is_optimal := is_optimal p && sol_is_optimal r;
               counter := counter p + 1 |}
            (add_output [rule_double] s'')
      end
  end.
Proof.
  cbn [solve_subgraphs]. rewrite !bind_print, !add_output_add_output.
  cbn [app]. unfold subproblem_header, bind.
  destruct (run alg w g _) as [[e|[[g' c'] o']] s']; [reflexivity|].
  cbn [sol_graph sol_cost sol_is_optimal fst snd].
  destruct (check_components _ _ _ _) as [[e|bcs] s'']; reflexivity.
Qed.

Lemma solve_subgraphs_invalid alg w num_rows total g rest p s :
  ~ valid_name (algorithm_name alg) ->
  exists s',
    solve_subgraphs alg w num_rows total (g :: rest) p s =
      (inl (Exception (invalid_name_msg (algorithm_name alg))), s')
    /\ same_solver_view s' s.
Proof.
  intros H. rewrite solve_subgraphs_cons, run_invalid by exact H.
  eexists; split; [reflexivity|apply add_output_view].
Qed.

Lemma solve_subgraphs_spec alg w num_rows total :
  forall subgraphs p s s2 results s2',
  same_solver_view s s2 ->
  run_all alg w subgraphs s2 = (inr results, s2') ->
  match first_failing num_rows (returned_components results) with
  | Some c =>
      exists s',
        solve_subgraphs alg w num_rows total subgraphs p s =
          (inl (Exception (not_bi_clique_msg c)), s')
  | None =>
      exists p' s',
        solve_subgraphs alg w num_rows total subgraphs p s = (inr p', s')
        /\ bi_clusters p' =
             (bi_clusters p ++ map (fun c => make_bi_cluster c num_rows)
                                   (returned_components results))%list
        /\ obj_val p' = fold_left cost_add (map sol_cost results) (obj_val p)
        /\ is_optimal p' = is_optimal p && forallb sol_is_optimal results
        /\ same_solver_view s' s2'
  end.
Proof.
  induction subgraphs as [|g rest IH]; intros p s s2 results s2' Hview Hall.
  - cbn in Hall. injection Hall as <- <-. cbn.
    exists p, s. rewrite app_nil_r, andb_true_r. repeat split; apply Hview.
  - rewrite run_all_cons in Hall.
    destruct (run alg w g s2) as [[e|r] s2a] eqn:Hr2; [discriminate|].
    destruct (run_all alg w rest s2a) as [[e|rs] s2b] eqn:Hrs; [discriminate|].
    injection Hall as <- <-.
    rewrite solve_subgraphs_cons.
    assert (Hhdr : same_solver_view
                     (add_output (subproblem_header num_rows total p g) s) s2).
    { eapply same_solver_view_trans; [apply add_output_view|exact Hview]. }
    destruct (run_frame alg w g Hhdr) as (Hfst & Hv & _).
    rewrite Hr2 in Hfst, Hv.
    destruct (run alg w g (add_output _ s)) as [x sa]. cbn in Hfst, Hv. subst x.
    unfold returned_components. cbn [flat_map].
    rewrite first_failing_app, check_components_eq.
    destruct (first_failing num_rows (connected_components (sol_graph r)))
      as [c|] eqn:Hf.
    + eexists; reflexivity.
    + match goal with
      | |- context [solve_subgraphs _ _ _ _ rest ?p1 ?s1] =>
          specialize (IH p1 s1 s2a rs s2b)
      end.
      specialize (IH (same_solver_view_trans (add_output_view _ _) Hv) Hrs).
      fold (returned_components rs).
      destruct (first_failing num_rows (returned_components rs)).
      * exact IH.
      * destruct IH as (p' & s' & Heq & Hb & Ho & Hopt & Hv').
        exists p', s'. cbn in Hb, Ho, Hopt.
        split; [exact Heq|]. split; [|split; [exact Ho|split; [|exact Hv']]].
        -- rewrite Hb, map_app, app_assoc. reflexivity.
        -- rewrite Hopt. cbn. now rewrite andb_assoc.
Qed.

(** *** The whole function *)

Lemma compute_bi_clusters_eq w alg s :
  compute_bi_clusters w alg s =
  match solve_subgraphs alg w (shape0 w) (List.length (hard_subgraphs w))
          (hard_subgraphs w) (initial_progress w)
          (add_output (preprocessing_report (instance_components w)
                         (trivial_bi_clusters w)) s) with
  | (inl e, s') => (inl e, s')
  | (inr p, s') =>
      (inr (bi_clusters p, obj_val p, is_optimal p),
       add_output (final_report p) s')
  end.
Proof.
  unfold compute_bi_clusters, hard_subgraphs, initial_progress,
    trivial_bi_clusters, instance_components.
  rewrite classify_eq. cbn [snd].
  rewrite !bind_print, !add_output_add_output. cbn [app].
  unfold bind at 1. unfold preprocessing_report.
  destruct (solve_subgraphs _ _ _ _ _ _ _) as [[e|p] s']; [reflexivity|].
  rewrite !bind_print, !add_output_add_output. reflexivity.
Qed.

Lemma valid_name_dec name : {valid_name name} + {~ valid_name name}.
Proof.
  unfold valid_name.
  destruct (string_dec name "ILP"); [left; now left|].
  destruct (string_dec name "CH"); [left; now right|].
  right; intros [H|H]; contradiction.
Defined.

(** What [compute_bi_clusters] does once the results of the solver calls
    are known. *)
Lemma compute_bi_clusters_spec w alg s results s2 :
  run_all alg w (hard_subgraphs w) s = (inr results, s2) ->
  match first_failing (shape0 w) (returned_components results) with
  | Some c =>
      exists s',
        compute_bi_clusters w alg s = (inl (Exception (not_bi_clique_msg c)), s')
  | None =>
      exists s',
        compute_bi_clusters w alg s =
          (inr ((trivial_bi_clusters w
                   ++ map (fun c => make_bi_cluster c (shape0 w))
                          (returned_components results))%list,
                fold_left cost_add (map sol_cost results) cost_zero,
                forallb sol_is_optimal results), s')
        /\ same_solver_view s' s2
  end.
Proof.
  intros Hall. rewrite compute_bi_clusters_eq.
  pose proof (@solve_subgraphs_spec alg w (shape0 w)
                (List.length (hard_subgraphs w)) (hard_subgraphs w)
                (initial_progress w)
                (add_output (preprocessing_report (instance_components w)
                               (trivial_bi_clusters w)) s)
                s results s2 (add_output_view _ _) Hall) as H.
  destruct (first_failing (shape0 w) (returned_components results)).
  - destruct H as [s' ->]. eauto.
  - destruct H as (p' & s' & -> & Hb & Ho & Hopt & Hv).
    rewrite Hb, Ho, Hopt. cbn. eexists; split; [reflexivity|].
    eapply same_solver_view_trans; [apply add_output_view|exact Hv].
Qed.

Lemma compute_bi_clusters_invalid w alg s :
  ~ valid_name (algorithm_name alg) ->
  hard_subgraphs w <> [] ->
  exists s',
    compute_bi_clusters w alg s =
      (inl (Exception (invalid_name_msg (algorithm_name alg))), s')
    /\ same_solver_view s' s.
Proof.
  intros Hn Hh. rewrite compute_bi_clusters_eq.
  destruct (hard_subgraphs w) as [|g rest]; [contradiction|].
  destruct (@solve_subgraphs_invalid alg w (shape0 w)
              (List.length (g :: rest)) g rest (initial_progress w)
              (add_output (preprocessing_report (instance_components w)
                             (trivial_bi_clusters w)) s) Hn)
    as (s' & -> & Hv).
  exists s'. split; [reflexivity|].
  eapply same_solver_view_trans; [exact Hv|apply add_output_view].
Qed.

(** A normal return means that every call of [run] returned. *)
Lemma compute_bi_clusters_returns w alg s out s' :
  compute_bi_clusters w alg s = (inr out, s') ->
  exists results s2, run_all alg w (hard_subgraphs w) s = (inr results, s2).
Proof.
  intros H. destruct (valid_name_dec (algorithm_name alg)) as [Hv|Hn].
  - apply run_all_valid; exact Hv.
  - destruct (hard_subgraphs w) as [|g rest] eqn:Hh.
    + exists [], s. reflexivity.
    + destruct (@compute_bi_clusters_invalid w alg s Hn) as (s1 & Heq & _).
      { rewrite Hh; discriminate. }
      rewrite Heq in H. discriminate.
Qed.

(** The same, with what is returned. *)
Lemma compute_bi_clusters_returned w alg s bcs obj opt s' :
  compute_bi_clusters w alg s = (inr (bcs, obj, opt), s') ->
  exists results s2,
    run_all alg w (hard_subgraphs w) s = (inr results, s2)
    /\ same_solver_view s' s2
    /\ forallb (fun c => is_bi_clique c (shape0 w))
               (returned_components results) = true
    /\ bcs = (trivial_bi_clusters w
                ++ map (fun c => make_bi_cluster c (shape0 w))
                       (returned_components results))%list
    /\ obj = fold_left cost_add (map sol_cost results) cost_zero
    /\ opt = forallb sol_is_optimal results.
Proof.
  intros H.
  destruct (compute_bi_clusters_returns _ _ _ H) as (results & s2 & Hall).
  exists results, s2. split; [exact Hall|].
  pose proof (compute_bi_clusters_spec _ _ _ Hall) as Hs.
  destruct (first_failing (shape0 w) (returned_components results)) eqn:Hf.
  - destruct Hs as [s1 Hs]. rewrite Hs in H. discriminate.
  - destruct Hs as (s1 & Hs & Hv). rewrite Hs in H.
    injection H as <- <- <- <-.
    apply first_failing_none in Hf. repeat split; try apply Hv. exact Hf.
Qed.

(** ** The selector *)

(** C7: [run] dispatches on the stored name.  With the name [ILP] it
    calls the exact solver once, with the stored time limit and tuning
    flag, and returns the solver's triple as it is; with the name [CH] it
    calls the heuristic solver once, with the stored bias factor and seed,
    and returns its triple as it is. *)
Theorem run_dispatch alg w g s :
  (algorithm_name alg = "ILP" ->
     let (r, e') := ilp_run w g (ilp_time_limit alg) (ilp_tune alg) (env s) in
     run alg w g s =
       (inr r,
        {| stdout := stdout s;
           calls := (calls s
                       ++ [CallILP w g (ilp_time_limit alg) (ilp_tune alg) r])%list;
           env := e' |}))
  /\
  (algorithm_name alg = "CH" ->
     let (r, e') := ch_run w g (ch_alpha alg) (ch_seed alg) (env s) in
     run alg w g s =
       (inr r,
        {| stdout := stdout s;
           calls := (calls s ++ [CallCH w g (ch_alpha alg) (ch_seed alg) r])%list;
           env := e' |})).
Proof.
  split; intros E; unfold run; rewrite E; cbn [String.eqb Ascii.eqb Bool.eqb].
  - unfold call_ilp. destruct (ilp_run _ _ _ _ _). reflexivity.
  - unfold call_ch. destruct (ch_run _ _ _ _ _). reflexivity.
Qed.

(** C9: a freshly constructed selector holds the name [ILP], the time
    limit 60, the tuning flag [False], the bias factor 1.0 and no seed;
    [run] on it makes exactly one solver call, to the exact solver with
    time limit 60 and tuning disabled. *)
Theorem run_default w g s :
  Algorithm_init = MkAlgorithm "ILP" 60 false 1 None
  /\ run Algorithm_init w g s =
       (inr (fst (ilp_run w g 60 false (env s))),
        {| stdout := stdout s;
           calls := (calls s
                       ++ [CallILP w g 60 false
                             (fst (ilp_run w g 60 false (env s)))])%list;
           env := snd (ilp_run w g 60 false (env s)) |}).
Proof.
  split; [reflexivity|].
  unfold run, call_ilp; cbn.
  destruct (ilp_run w g 60 false (env s)); reflexivity.
Qed.

(** ** The orchestrator *)

(** C1: the components of every subgraph a solver returns are checked
    with [is_bi_clique], whatever optimality flag came with it.  Given the
    results of the calls of [run] on the hard subgraphs: if some component
    of a returned subgraph is not a bi-clique, [compute_bi_clusters]
    raises, the message is built from the nodes and edges of a failing
    component (the first one met) and nothing is returned; and whenever
    [compute_bi_clusters] returns, all those components passed. *)
Theorem solver_results_are_checked w alg s results s2 :
  run_all alg w (hard_subgraphs w) s = (inr results, s2) ->
  ((exists c, In c (returned_components results)
              /\ is_bi_clique c (shape0 w) = false) ->
   exists c s',
     In c (returned_components results)
     /\ is_bi_clique c (shape0 w) = false
     /\ first_failing (shape0 w) (returned_components results) = Some c
     /\ compute_bi_clusters w alg s =
          (inl (Exception
                  ("Subgraph should be bi-clique but isn't."
                     ++ newline ++ "Nodes: " ++ str_nodes (nodes c)
                     ++ newline ++ "Edges: " ++ str_edges (edges c))), s'))
  /\
  (forall out s',
     compute_bi_clusters w alg s = (inr out, s') ->
     forall c, In c (returned_components results) ->
               is_bi_clique c (shape0 w) = true).
Proof.
  intros Hall. pose proof (compute_bi_clusters_spec _ _ _ Hall) as Hs.
  destruct (first_failing (shape0 w) (returned_components results))
    as [c|] eqn:Hf.
  - destruct Hs as [s' Hs]. split.
    + intros _. destruct (first_failing_some _ _ Hf) as [Hin Hbad].
      exists c, s'. repeat split; assumption.
    + intros out s1 H. rewrite Hs in H. discriminate.
  - apply first_failing_none in Hf. rewrite forallb_forall in Hf. split.
    + intros (c & Hin & Hbad). rewrite (Hf c Hin) in Hbad. discriminate.
    + intros out s1 _ c Hin. apply Hf, Hin.
Qed.

(** C2: the optimality flag that [compute_bi_clusters] returns is the
    conjunction of the flags that [run] returned on the hard subgraphs
    (the components that are not bi-cliques), hence [True] when there is
    no hard subgraph. *)
Theorem optimality_is_conjunction w alg s bcs obj opt s' :
  compute_bi_clusters w alg s = (inr (bcs, obj, opt), s') ->
  hard_subgraphs w =
    filter (fun c => negb (is_bi_clique c (shape0 w))) (instance_components w)
  /\ exists results s2,
       run_all alg w (hard_subgraphs w) s = (inr results, s2)
       /\ opt = forallb sol_is_optimal results
       /\ (hard_subgraphs w = [] -> opt = true).
Proof.
  intros H. split; [apply hard_subgraphs_eq|].
  destruct (compute_bi_clusters_returned _ _ _ H)
    as (results & s2 & Hall & _ & _ & _ & _ & Hopt).
  exists results, s2. repeat split; try assumption.
  intros Hh. rewrite Hh in Hall. cbn in Hall.
  injection Hall as <- _. exact Hopt.
Qed.

(** C3: the objective value that [compute_bi_clusters] returns is the sum,
    from 0 and in the order of the calls, of the costs that [run] returned
    on the hard subgraphs; the components that are bi-cliques add
    nothing. *)
Theorem objective_is_sum w alg s bcs obj opt s' :
  compute_bi_clusters w alg s = (inr (bcs, obj, opt), s') ->
  hard_subgraphs w =
    filter (fun c => negb (is_bi_clique c (shape0 w))) (instance_components w)
  /\ exists results s2,
       run_all alg w (hard_subgraphs w) s = (inr results, s2)
       /\ obj = fold_left cost_add (map sol_cost results) cost_zero
       /\ (hard_subgraphs w = [] -> obj = cost_zero).
Proof.
  intros H. split; [apply hard_subgraphs_eq|].
  destruct (compute_bi_clusters_returned _ _ _ H)
    as (results & s2 & Hall & _ & _ & _ & Hobj & _).
  exists results, s2. repeat split; try assumption.
  intros Hh. rewrite Hh in Hall. cbn in Hall.
  injection Hall as <- _. exact Hobj.
Qed.

(** C4: when every connected component of the instance's graph is a
    bi-clique, [compute_bi_clusters] returns, for any selector, one
    bi-cluster per component (its row nodes, and its column nodes through
    [node_to_col]), the cost 0 and the flag [True]; no solver is called
    and the solvers' state is as before. *)
Theorem all_bi_cliques w alg s :
  (forall c, In c (instance_components w) -> is_bi_clique c (shape0 w) = true) ->
  exists s',
    compute_bi_clusters w alg s =
      (inr (map (fun c => (rows_of (shape0 w) c, cols_of (shape0 w) c))
                (instance_components w),
            cost_zero, true), s')
    /\ calls s' = calls s /\ env s' = env s.
Proof.
  intros Hall.
  assert (Hh : hard_subgraphs w = []).
  { rewrite hard_subgraphs_eq.
    induction (instance_components w) as [|c cs IH]; [reflexivity|].
    cbn. rewrite (Hall c (or_introl eq_refl)). cbn.
    apply IH. intros d Hd. apply Hall. now right. }
  assert (Hrun : run_all alg w (hard_subgraphs w) s = (inr [], s)).
  { rewrite Hh. reflexivity. }
  pose proof (compute_bi_clusters_spec _ _ _ Hrun) as Hs. cbn in Hs.
  destruct Hs as (s' & Hs & Hc & He). exists s'.
  rewrite Hs, app_nil_r. unfold trivial_bi_clusters.
  replace (filter (fun c => is_bi_clique c (shape0 w)) (instance_components w))
    with (instance_components w).
  - rewrite (map_ext _ _ (fun c => make_bi_cluster_eq c (shape0 w))).
    repeat split; assumption.
  - clear -Hall. induction (instance_components w) as [|c cs IH]; [reflexivity|].
    cbn. rewrite (Hall c (or_introl eq_refl)). f_equal.
    apply IH. intros d Hd. apply Hall. now right.
Qed.

(** C6, as the code has it: with a name that is neither [ILP] nor [CH]
    and at least one component that is not a bi-clique,
    [compute_bi_clusters] raises the exception whose message quotes the
    name and lists the two options, without any solver being called. *)
Theorem invalid_name_with_hard_subgraph w alg s :
  algorithm_name alg <> "ILP" ->
  algorithm_name alg <> "CH" ->
  hard_subgraphs w <> [] ->
  exists s',
    compute_bi_clusters w alg s =
      (inl (Exception
              ("Invalid algorithm name " ++ quote ++ algorithm_name alg ++ quote
                 ++ ". Options: " ++ quote ++ "ILP" ++ quote ++ ", "
                 ++ quote ++ "CH" ++ quote ++ ".")), s')
    /\ calls s' = calls s /\ env s' = env s.
Proof.
  intros H1 H2 Hh.
  destruct (@compute_bi_clusters_invalid w alg s) as (s' & Heq & Hc & He).
  - intros [E|E]; contradiction.
  - exact Hh.
  - exists s'. repeat split; assumption.
Qed.

(** *** Lists of nodes up to order *)

Lemma Permutation_filter_both {A} (f : A -> bool) (l l' : list A) :
  Permutation l l' -> Permutation (filter f l) (filter f l').
Proof.
  induction 1 as [|x l l' _ IH|x y l|l l' l'' _ IH1 _ IH2]; cbn.
  - constructor.
  - destruct (f x); [constructor|]; exact IH.
  - destruct (f x), (f y); try reflexivity. constructor.
  - now transitivity (filter f l').
Qed.

Lemma flat_map_filter_split {A B} (p : A -> bool) (f : A -> list B) (l : list A) :
  Permutation (flat_map f (filter p l) ++ flat_map f (filter (fun x => negb (p x)) l))
              (flat_map f l).
Proof.
  induction l as [|a l IH]; cbn; [constructor|].
  destruct (p a); cbn.
  - rewrite <- app_assoc. now apply Permutation_app_head.
  - rewrite Permutation_app_swap_app. now apply Permutation_app_head.
Qed.

Lemma filter_none {A} (f : A -> bool) (l : list A) :
  (forall x, In x l -> f x = false) -> filter f l = [].
Proof.
  induction l as [|a l IH]; intros H; cbn; [reflexivity|].
  rewrite (H a (or_introl eq_refl)). apply IH. intros x Hx. apply H. now right.
Qed.

Lemma rows_of_node_range n m :
  filter (fun v => Helpers.is_row v n) (seq 0 (n + m)) = seq 0 n.
Proof.
  rewrite seq_app, filter_app. cbn.
  rewrite forallb_filter_id, filter_none.
  - apply app_nil_r.
  - intros x Hx. apply in_seq in Hx. apply Nat.ltb_ge. lia.
  - apply forallb_forall. intros x Hx. apply in_seq in Hx.
    apply Nat.ltb_lt. lia.
Qed.

Lemma map_node_to_col n m : forall k,
  map (fun v => Helpers.node_to_col v n) (seq (n + k) m) = seq k m.
Proof.
  induction m as [|m IH]; intros k; cbn; [reflexivity|].
  f_equal.
  - unfold Helpers.node_to_col. lia.
  - rewrite <- (IH (S k)). now rewrite Nat.add_succ_r.
Qed.

Lemma cols_of_node_range n m :
  map (fun v => Helpers.node_to_col v n)
      (filter (fun v => negb (Helpers.is_row v n)) (seq 0 (n + m))) = seq 0 m.
Proof.
  rewrite seq_app, filter_app. cbn.
  rewrite filter_none, forallb_filter_id.
  - cbn. pose proof (map_node_to_col n m 0) as H.
    rewrite Nat.add_0_r in H. exact H.
  - apply forallb_forall. intros x Hx. apply in_seq in Hx.
    apply negb_true_iff, Nat.ltb_ge. lia.
  - intros x Hx. apply in_seq in Hx.
    apply negb_false_iff, Nat.ltb_lt. lia.
Qed.

Lemma rows_of_bi_clusters num_rows cs :
  flat_map fst (map (fun c => make_bi_cluster c num_rows) cs) =
  filter (fun v => Helpers.is_row v num_rows) (flat_map nodes cs).
Proof.
  induction cs as [|c cs IH]; cbn; [reflexivity|].
  now rewrite make_bi_cluster_eq, filter_app, IH.
Qed.

Lemma cols_of_bi_clusters num_rows cs :
  flat_map snd (map (fun c => make_bi_cluster c num_rows) cs) =
  map (fun v => Helpers.node_to_col v num_rows)
      (filter (fun v => negb (Helpers.is_row v num_rows)) (flat_map nodes cs)).
Proof.
  induction cs as [|c cs IH]; cbn; [reflexivity|].
  now rewrite make_bi_cluster_eq, filter_app, map_app, IH.
Qed.

Section NodePreservation.

Hypothesis components_partition :
  forall g, Permutation (flat_map nodes (connected_components g)) (nodes g).
Hypothesis ilp_keeps_nodes :
  forall w g t tune e,
    Permutation (nodes (sol_graph (fst (ilp_run w g t tune e)))) (nodes g).
Hypothesis ch_keeps_nodes :
  forall w g alpha seed e,
    Permutation (nodes (sol_graph (fst (ch_run w g alpha seed e)))) (nodes g).

Lemma run_keeps_nodes alg w g s r s' :
  run alg w g s = (inr r, s') ->
  Permutation (nodes (sol_graph r)) (nodes g).
Proof.
  unfold run.
  destruct (String.eqb (algorithm_name alg) "ILP").
  - unfold call_ilp. intros H.
    pose proof (ilp_keeps_nodes w g (ilp_time_limit alg) (ilp_tune alg) (env s)) as K.
    destruct (ilp_run _ _ _ _ _). injection H as <- _. exact K.
  - destruct (String.eqb (algorithm_name alg) "CH"); [|discriminate].
    unfold call_ch. intros H.
    pose proof (ch_keeps_nodes w g (ch_alpha alg) (ch_seed alg) (env s)) as K.
    destruct (ch_run _ _ _ _ _). injection H as <- _. exact K.
Qed.

Lemma run_all_keeps_nodes alg w : forall gs s results s',
  run_all alg w gs s = (inr results, s') ->
  Permutation (flat_map nodes (returned_components results)) (flat_map nodes gs).
Proof.
  induction gs as [|g gs IH]; intros s results s' H.
  - cbn in H. injection H as <- _. constructor.
  - rewrite run_all_cons in H.
    destruct (run alg w g s) as [[e|r] s1] eqn:Hr; [discriminate|].
    destruct (run_all alg w gs s1) as [[e|rs] s2] eqn:Hrs; [discriminate|].
    injection H as <- _.
    unfold returned_components. cbn. rewrite flat_map_app.
    apply Permutation_app.
    + rewrite components_partition. eapply run_keeps_nodes, Hr.
    + eapply IH, Hrs.
Qed.

Lemma final_components_nodes w alg s results s' :
  Permutation (nodes (build_graph_from_weights w (node_range w))) (node_range w) ->
  run_all alg w (hard_subgraphs w) s = (inr results, s') ->
  Permutation
    (flat_map nodes
       (filter (fun c => is_bi_clique c (shape0 w)) (instance_components w)
          ++ returned_components results))
    (seq 0 (shape0 w + shape1 w)).
Proof.
  intros Hb Hall. rewrite flat_map_app.
  rewrite (run_all_keeps_nodes _ _ _ _ Hall), hard_subgraphs_eq.
  rewrite flat_map_filter_split. unfold instance_components.
  rewrite components_partition. exact Hb.
Qed.

End NodePreservation.

(** C5: if [connected_components] partitions the nodes of a graph, the
    instance's graph has the [n+m] node ids as its nodes, and both solvers
    return a subgraph on the nodes of the subgraph they are given, then in
    what [compute_bi_clusters] returns each row index [0..n-1] occurs
    exactly once among the row lists and each column index [0..m-1]
    exactly once among the column lists.  Every component, whether found
    to be a bi-clique by the first loop or returned by a solver, gives one
    bi-cluster; one with rows only gives a bi-cluster with an empty column
    list, and likewise for columns. *)
Theorem bi_clusters_partition_indices w alg s bcs obj opt s' :
  (forall g, Permutation (flat_map nodes (connected_components g)) (nodes g)) ->
  Permutation (nodes (build_graph_from_weights w (node_range w)))
              (seq 0 (shape0 w + shape1 w)) ->
  (forall w g t tune e,
     Permutation (nodes (sol_graph (fst (ilp_run w g t tune e)))) (nodes g)) ->
  (forall w g alpha seed e,
     Permutation (nodes (sol_graph (fst (ch_run w g alpha seed e)))) (nodes g)) ->
  compute_bi_clusters w alg s = (inr (bcs, obj, opt), s') ->
  Permutation (flat_map fst bcs) (seq 0 (shape0 w))
  /\ Permutation (flat_map snd bcs) (seq 0 (shape1 w))
  /\ exists results s2,
       run_all alg w (hard_subgraphs w) s = (inr results, s2)
       /\ bcs = map (fun c => (rows_of (shape0 w) c, cols_of (shape0 w) c))
                    (filter (fun c => is_bi_clique c (shape0 w))
                            (instance_components w)
                       ++ returned_components results)
       /\ (forall c,
             In c (filter (fun c => is_bi_clique c (shape0 w))
                          (instance_components w)
                     ++ returned_components results) ->
             ((forall v, In v (nodes c) -> v < shape0 w) ->
                In (nodes c, []) bcs)
             /\ ((forall v, In v (nodes c) -> shape0 w <= v) ->
                In ([], map (fun v => v - shape0 w) (nodes c)) bcs)).
Proof.
  intros Hcc Hb Hilp Hch H.
  destruct (compute_bi_clusters_returned _ _ _ H)
    as (results & s2 & Hall & _ & _ & Hbcs & _ & _).
  unfold trivial_bi_clusters in Hbcs. rewrite <- map_app in Hbcs.
  pose proof (@final_components_nodes Hcc Hilp Hch w alg s results s2 Hb Hall) as Hn.
  split; [|split].
  - rewrite Hbcs, rows_of_bi_clusters, <- rows_of_node_range with (m := shape1 w).
    apply Permutation_filter_both, Hn.
  - rewrite Hbcs, cols_of_bi_clusters, <- cols_of_node_range with (n := shape0 w).
    apply Permutation_map, Permutation_filter_both, Hn.
  - exists results, s2. split; [exact Hall|].
    assert (Hmap : bcs = map (fun c => (rows_of (shape0 w) c, cols_of (shape0 w) c))
               (filter (fun c => is_bi_clique c (shape0 w)) (instance_components w)
                  ++ returned_components results)).
    { rewrite Hbcs. apply map_ext. intros c. apply make_bi_cluster_eq. }
    split; [exact Hmap|].
    intros c Hc. split; intros Hside.
    + rewrite Hmap. apply in_map_iff. exists c. split; [|exact Hc].
      unfold rows_of, cols_of. rewrite forallb_filter_id, filter_none.
      * reflexivity.
      * intros v Hv. apply negb_false_iff, Nat.ltb_lt, Hside, Hv.
      * apply forallb_forall. intros v Hv. apply Nat.ltb_lt, Hside, Hv.
    + rewrite Hmap. apply in_map_iff. exists c. split; [|exact Hc].
      unfold rows_of, cols_of.
      rewrite (filter_none (fun v => Helpers.is_row v (shape0 w))), forallb_filter_id.
      * reflexivity.
      * apply forallb_forall. intros v Hv.
        apply negb_true_iff, Nat.ltb_ge, Hside, Hv.
      * intros v Hv. apply Nat.ltb_ge, Hside, Hv.
Qed.

(** ** Further properties of the selector and the orchestrator *)

Lemma filter_length_split {A} (p : A -> bool) (l : list A) :
  List.length (filter p l) + List.length (filter (fun x => negb (p x)) l)
  = List.length l.
Proof.
  induction l as [|a l IH]; cbn; [reflexivity|].
  destruct (p a); cbn; lia.
Qed.

Lemma filter_both_Permutation {A} (p : A -> bool) (l : list A) :
  Permutation (filter p l ++ filter (fun x => negb (p x)) l) l.
Proof.
  induction l as [|a l IH]; cbn; [constructor|].
  destruct (p a); cbn.
  - now constructor.
  - rewrite <- Permutation_middle. now constructor.
Qed.

Lemma column_nodes_shift_back num_rows l :
  map (fun k => k + num_rows)
      (map (fun v => Helpers.node_to_col v num_rows)
           (filter (fun v => negb (Helpers.is_row v num_rows)) l))
  = filter (fun v => negb (Helpers.is_row v num_rows)) l.
Proof.
  induction l as [|v l IH]; [reflexivity|]. cbn [filter].
  destruct (Helpers.is_row v num_rows) eqn:E; cbn [negb map]; [exact IH|].
  rewrite IH. f_equal.
  apply Nat.ltb_ge in E. unfold Helpers.node_to_col. lia.
Qed.

(** X1: [run] on a selector whose name is neither [ILP] nor [CH] (the
    comparison is exact, so [ilp] is such a name) raises the exception that
    quotes the name and lists the two options; it prints nothing and calls
    no solver, the state is as before. *)
Theorem run_rejects_other_names alg w g s :
  algorithm_name alg <> "ILP" ->
  algorithm_name alg <> "CH" ->
  run alg w g s =
    (inl (Exception
            ("Invalid algorithm name " ++ quote ++ algorithm_name alg ++ quote
               ++ ". Options: " ++ quote ++ "ILP" ++ quote ++ ", "
               ++ quote ++ "CH" ++ quote ++ ".")), s).
Proof.
  intros H1 H2. apply run_invalid. intros [E|E]; contradiction.
Qed.

(** X3: the first loop loses no component and keeps their order: the
    components it turns into bi-clusters and those it queues as subgraphs
    are together as many as the components, the subgraphs are the
    components that fail [is_bi_clique], in order, and the bi-clusters are
    those of the components that pass, in order. *)
Theorem classify_keeps_every_component num_rows cs :
  List.length (fst (classify num_rows cs)) + List.length (snd (classify num_rows cs))
    = List.length cs
  /\ snd (classify num_rows cs)
       = filter (fun c => negb (is_bi_clique c num_rows)) cs
  /\ fst (classify num_rows cs)
       = map (fun c => (rows_of num_rows c, cols_of num_rows c))
             (filter (fun c => is_bi_clique c num_rows) cs).
Proof.
  rewrite classify_eq. cbn [fst snd]. split; [|split].
  - rewrite length_map. apply filter_length_split.
  - reflexivity.
  - apply map_ext. intros c. apply make_bi_cluster_eq.
Qed.

(** X4: the bi-cluster of a component holds each of its nodes once: the
    rows are node ids below [num_rows], and the rows together with the
    columns shifted back by [num_rows] are the nodes of the component, up
    to order. *)
Theorem bi_cluster_recovers_nodes c num_rows :
  Permutation
    (fst (make_bi_cluster c num_rows)
       ++ map (fun k => k + num_rows) (snd (make_bi_cluster c num_rows)))
    (nodes c)
  /\ Forall (fun r => r < num_rows) (fst (make_bi_cluster c num_rows))
  /\ List.length (fst (make_bi_cluster c num_rows))
       + List.length (snd (make_bi_cluster c num_rows))
     = List.length (nodes c).
Proof.
  rewrite make_bi_cluster_eq. cbn [fst snd]. unfold rows_of, cols_of.
  split; [|split].
  - rewrite column_nodes_shift_back. apply filter_both_Permutation.
  - apply Forall_forall. intros r Hr. apply filter_In in Hr as [_ Hr].
    now apply Nat.ltb_lt.
  - rewrite length_map. apply filter_length_split.
Qed.


(** X11: every bi-cluster that [compute_bi_clusters] returns comes from a
    component on which [is_bi_clique] returned [True]: first the components
    of the instance that pass, in order, then the components of the
    returned subgraphs, in the order they were solved. *)
Theorem every_bi_cluster_passed_the_check w alg s bcs obj opt s' :
  compute_bi_clusters w alg s = (inr (bcs, obj, opt), s') ->
  exists results s2,
    run_all alg w (hard_subgraphs w) s = (inr results, s2)
    /\ bcs = map (fun c => (rows_of (shape0 w) c, cols_of (shape0 w) c))
                 (filter (fun c => is_bi_clique c (shape0 w))
                         (instance_components w)
                    ++ returned_components results)
    /\ Forall (fun c => is_bi_clique c (shape0 w) = true)
              (filter (fun c => is_bi_clique c (shape0 w))
                      (instance_components w)
                 ++ returned_components results).
Proof.
  intros H.
  destruct (compute_bi_clusters_returned _ _ _ H)
    as (results & s2 & Hall & _ & Hok & Hbcs & _ & _).
  exists results, s2. split; [exact Hall|]. split.
  - rewrite Hbcs. unfold trivial_bi_clusters. rewrite <- map_app.
    apply map_ext. intros c. apply make_bi_cluster_eq.
  - apply Forall_app. split.
    + apply Forall_forall. intros c Hc. now apply filter_In in Hc as [_ Hc].
    + apply Forall_forall. rewrite forallb_forall in Hok. exact Hok.
Qed.

(** *** Where the results come from *)

Lemma run_result_from_solver alg w g s r s' :
  run alg w g s = (inr r, s') ->
  (exists t tune e, r = fst (ilp_run w g t tune e))
  \/ (exists alpha seed e, r = fst (ch_run w g alpha seed e)).
Proof.
  unfold run. destruct (String.eqb (algorithm_name alg) "ILP").
  - unfold call_ilp. intros H. left.
    exists (ilp_time_limit alg), (ilp_tune alg), (env s).
    destruct (ilp_run _ _ _ _ _). now injection H as <- _.
  - destruct (String.eqb (algorithm_name alg) "CH"); [|discriminate].
    unfold call_ch. intros H. right.
    exists (ch_alpha alg), (ch_seed alg), (env s).
    destruct (ch_run _ _ _ _ _). now injection H as <- _.
Qed.

Lemma run_all_results_from_solvers alg w : forall gs s results s',
  run_all alg w gs s = (inr results, s') ->
  forall r, In r results ->
    exists g,
      (exists t tune e, r = fst (ilp_run w g t tune e))
      \/ (exists alpha seed e, r = fst (ch_run w g alpha seed e)).
Proof.
  induction gs as [|g gs IH]; intros s results s' H r Hr.
  - cbn in H. injection H as <- _. destruct Hr.
  - rewrite run_all_cons in H.
    destruct (run alg w g s) as [[e|r0] s1] eqn:Hrun; [discriminate|].
    destruct (run_all alg w gs s1) as [[e|rs] s2] eqn:Hrs; [discriminate|].
    injection H as <- _. destruct Hr as [<-|Hr].
    + exists g. eapply run_result_from_solver, Hrun.
    + eapply IH; eassumption.
Qed.

Lemma run_all_length alg w : forall gs s results s',
  run_all alg w gs s = (inr results, s') ->
  List.length results = List.length gs.
Proof.
  induction gs as [|g gs IH]; intros s results s' H.
  - cbn in H. now injection H as <- _.
  - rewrite run_all_cons in H.
    destruct (run alg w g s) as [[e|r0] s1]; [discriminate|].
    destruct (run_all alg w gs s1) as [[e|rs] s2] eqn:Hrs; [discriminate|].
    injection H as <- _. cbn. f_equal. eapply IH, Hrs.
Qed.

Lemma run_all_calls_ilp alg w :
  algorithm_name alg = "ILP" ->
  forall gs s results s',
  run_all alg w gs s = (inr results, s') ->
  calls s' =
    (calls s ++ map (fun gr => CallILP w (fst gr) (ilp_time_limit alg)
                                 (ilp_tune alg) (snd gr))
                    (combine gs results))%list.
Proof.
  intros E. induction gs as [|g gs IH]; intros s results s' H.
  - cbn in H. injection H as <- <-. cbn. now rewrite app_nil_r.
  - rewrite run_all_cons in H. unfold run in H. rewrite E in H.
    cbn [String.eqb Ascii.eqb Bool.eqb] in H. unfold call_ilp in H.
    destruct (ilp_run w g (ilp_time_limit alg) (ilp_tune alg) (env s)) as [r e'].
    match type of H with
    | context [run_all alg w gs ?s1] =>
        destruct (run_all alg w gs s1) as [[e|rs] s2] eqn:Hrs; [discriminate|]
    end.
    injection H as <- <-. rewrite (IH _ _ _ Hrs). cbn.
    now rewrite <- app_assoc.
Qed.

Lemma run_all_calls_ch alg w :
  algorithm_name alg = "CH" ->
  forall gs s results s',
  run_all alg w gs s = (inr results, s') ->
  calls s' =
    (calls s ++ map (fun gr => CallCH w (fst gr) (ch_alpha alg)
                                 (ch_seed alg) (snd gr))
                    (combine gs results))%list.
Proof.
  intros E. induction gs as [|g gs IH]; intros s results s' H.
  - cbn in H. injection H as <- <-. cbn. now rewrite app_nil_r.
  - rewrite run_all_cons in H. unfold run in H. rewrite E in H.
    cbn [String.eqb Ascii.eqb Bool.eqb] in H. unfold call_ch in H.
    destruct (ch_run w g (ch_alpha alg) (ch_seed alg) (env s)) as [r e'].
    match type of H with
    | context [run_all alg w gs ?s1] =>
        destruct (run_all alg w gs s1) as [[e|rs] s2] eqn:Hrs; [discriminate|]
    end.
    injection H as <- <-. rewrite (IH _ _ _ Hrs). cbn.
    now rewrite <- app_assoc.
Qed.

(** X6: with a valid name and solvers that keep their contract on this
    instance (every component of a subgraph they return passes
    [is_bi_clique]), [compute_bi_clusters] returns a result; it does not
    raise. *)
Theorem honest_solvers_never_abort w alg s :
  (algorithm_name alg = "ILP" \/ algorithm_name alg = "CH") ->
  (forall g t tune e c,
     In c (connected_components (sol_graph (fst (ilp_run w g t tune e)))) ->
     is_bi_clique c (shape0 w) = true) ->
  (forall g alpha seed e c,
     In c (connected_components (sol_graph (fst (ch_run w g alpha seed e)))) ->
     is_bi_clique c (shape0 w) = true) ->
  exists bcs obj opt s',
    compute_bi_clusters w alg s = (inr (bcs, obj, opt), s').
Proof.
  intros Hv Hilp Hch.
  destruct (@run_all_valid alg w Hv (hard_subgraphs w) s) as (results & s2 & Hall).
  pose proof (compute_bi_clusters_spec _ _ _ Hall) as Hs.
  destruct (first_failing (shape0 w) (returned_components results))
    as [c|] eqn:Hf.
  - exfalso. apply first_failing_some in Hf as [Hin Hbad].
    unfold returned_components in Hin. apply in_flat_map in Hin as (r & Hr & Hc).
    destruct (@run_all_results_from_solvers alg w _ _ _ _ Hall r Hr)
      as (g & [(t & tune & e & ->)|(alpha & seed & e & ->)]).
    + rewrite (Hilp _ _ _ _ _ Hc) in Hbad. discriminate.
    + rewrite (Hch _ _ _ _ _ Hc) in Hbad. discriminate.
  - destruct Hs as (s' & Hs & _). eauto.
Qed.

(** X8: when [compute_bi_clusters] returns, the solver calls it made are
    one per hard subgraph, in the order of the subgraphs, each with the
    whole weight matrix, the subgraph and the stored parameters of the
    selected variant. *)
Theorem each_hard_subgraph_is_solved_once w alg s bcs obj opt s' :
  compute_bi_clusters w alg s = (inr (bcs, obj, opt), s') ->
  exists results,
    List.length results = List.length (hard_subgraphs w)
    /\ (algorithm_name alg = "ILP" ->
        calls s' =
          (calls s ++ map (fun gr => CallILP w (fst gr) (ilp_time_limit alg)
                                       (ilp_tune alg) (snd gr))
                          (combine (hard_subgraphs w) results))%list)
    /\ (algorithm_name alg = "CH" ->
        calls s' =
          (calls s ++ map (fun gr => CallCH w (fst gr) (ch_alpha alg)
                                       (ch_seed alg) (snd gr))
                          (combine (hard_subgraphs w) results))%list).
Proof.
  intros H.
  destruct (compute_bi_clusters_returned _ _ _ H)
    as (results & s2 & Hall & [Hc _] & _).
  exists results. split; [eapply run_all_length, Hall|]. split; intros E.
  - rewrite Hc. eapply run_all_calls_ilp; eassumption.
  - rewrite Hc. eapply run_all_calls_ch; eassumption.
Qed.

(** *** Aborting *)

Lemma solve_subgraphs_app alg w num_rows total l1 l2 : forall p s,
  solve_subgraphs alg w num_rows total (l1 ++ l2) p s =
  match solve_subgraphs alg w num_rows total l1 p s with
  | (inl e, s') => (inl e, s')
  | (inr p', s') => solve_subgraphs alg w num_rows total l2 p' s'
  end.
Proof.
  induction l1 as [|g l1 IH]; intros p s; [reflexivity|].
  cbn [app]. rewrite !solve_subgraphs_cons.
  destruct (run alg w g _) as [[e|r] s1]; [reflexivity|].
  destruct (check_components _ _ _ _) as [[e|bcs] s2]; [reflexivity|].
  apply IH.
Qed.

Lemma first_failing_exists num_rows l :
  (exists c, In c l /\ is_bi_clique c num_rows = false) ->
  exists c, first_failing num_rows l = Some c.
Proof.
  intros (c & Hin & Hbad).
  destruct (first_failing num_rows l) as [c'|] eqn:Hf; [eauto|].
  apply first_failing_none in Hf. rewrite forallb_forall in Hf.
  rewrite (Hf c Hin) in Hbad. discriminate.
Qed.

(** X7: the first returned subgraph with a component that fails the check
    ends the computation at once.  If the subgraphs before [g] were solved
    and passed, and the subgraph returned for [g] has a failing component,
    [compute_bi_clusters] raises for a failing component of that subgraph
    and leaves the solvers as they were right after the call for [g]: none
    of the subgraphs after [g] is passed to a solver. *)
Theorem abort_skips_remaining_subgraphs w alg s pre g post rpre s0 r s1 :
  hard_subgraphs w = (pre ++ g :: post)%list ->
  run_all alg w pre s = (inr rpre, s0) ->
  forallb (fun c => is_bi_clique c (shape0 w)) (returned_components rpre) = true ->
  run alg w g s0 = (inr r, s1) ->
  (exists c, In c (connected_components (sol_graph r))
             /\ is_bi_clique c (shape0 w) = false) ->
  exists c s',
    In c (connected_components (sol_graph r))
    /\ is_bi_clique c (shape0 w) = false
    /\ compute_bi_clusters w alg s = (inl (Exception (not_bi_clique_msg c)), s')
    /\ calls s' = calls s1 /\ env s' = env s1.
Proof.
  intros Hh Hpre Hok Hrun Hbad.
  rewrite compute_bi_clusters_eq, Hh, solve_subgraphs_app.
  apply first_failing_none in Hok.
  match goal with
  | |- context [solve_subgraphs alg w ?n ?total pre ?p0 ?st] =>
      pose proof (@solve_subgraphs_spec alg w n total pre p0 st s rpre s0
                    (add_output_view _ _) Hpre) as Hs
  end.
  rewrite Hok in Hs. destruct Hs as (p' & sp & -> & _ & _ & _ & Hv).
  rewrite solve_subgraphs_cons.
  match goal with
  | |- context [run alg w g ?st] =>
      assert (Hhdr : same_solver_view st s0)
        by (eapply same_solver_view_trans; [apply add_output_view|exact Hv]);
      destruct (run_frame alg w g Hhdr) as (Hfst & Hview & _);
      destruct (run alg w g st) as [x sa]
  end.
  rewrite Hrun in Hfst, Hview. cbn in Hfst, Hview. subst x.
  rewrite check_components_eq.
  destruct (@first_failing_exists _ _ Hbad) as [c Hf]. rewrite Hf.
  destruct (first_failing_some _ _ Hf) as [Hin Hc].
  exists c, sa. destruct Hview as [Hcalls Henv]. repeat split; assumption.
Qed.

(** *** What is printed *)

Lemma run_stdout alg w g s : stdout (snd (run alg w g s)) = stdout s.
Proof.
  assert (Hv : same_solver_view s s) by (split; reflexivity).
  now destruct (run_frame alg w g Hv) as (_ & _ & H).
Qed.

Lemma solve_subgraphs_stdout alg w num_rows total : forall gs p s,
  exists printed,
    stdout (snd (solve_subgraphs alg w num_rows total gs p s))
      = (stdout s ++ printed)%list
    /\ (forall p', fst (solve_subgraphs alg w num_rows total gs p s) = inr p' ->
                   List.length printed = 5 * List.length gs).
Proof.
  induction gs as [|g gs IH]; intros p s.
  - exists []. cbn. rewrite app_nil_r. split; reflexivity.
  - rewrite solve_subgraphs_cons.
    pose proof (run_stdout alg w g
                  (add_output (subproblem_header num_rows total p g) s)) as Hout.
    destruct (run alg w g _) as [[e|r] sa]; cbn [snd] in Hout.
    + exists (subproblem_header num_rows total p g). cbn [fst snd].
      split; [exact Hout|discriminate].
    + rewrite check_components_eq.
      destruct (first_failing num_rows (connected_components (sol_graph r))).
      * exists (subproblem_header num_rows total p g). cbn [fst snd].
        split; [exact Hout|discriminate].
      * match goal with
        | |- context [solve_subgraphs alg w num_rows total gs ?p1 ?s1] =>
            destruct (IH p1 s1) as (printed & Hp & Hlen)
        end.
        exists (subproblem_header num_rows total p g ++ rule_double :: printed)%list.
        split.
        -- rewrite Hp. cbn [add_output stdout]. rewrite Hout.
           cbn [add_output stdout]. rewrite <- !app_assoc. reflexivity.
        -- intros p' Hp'. rewrite length_app. cbn [List.length].
           rewrite (Hlen p' Hp'). unfold subproblem_header. cbn [List.length]. lia.
Qed.

(** X10: whatever the outcome, [compute_bi_clusters] first prints the
    six lines of the pre-processing report, with the number of connected
    components and the number of those that are bi-cliques, after what had
    been printed before. *)
Theorem preprocessing_report_is_always_printed w alg s :
  exists rest,
    stdout (snd (compute_bi_clusters w alg s)) =
      List.app (stdout s)
        (List.app
           [ newline ++ rule_double;
             "Finished pre-processing.";
             rule_single;
             "Number of connected components: "
               ++ str_nat (List.length (instance_components w));
             "Number of bi-cliques: "
               ++ str_nat (List.length
                             (filter (fun c => is_bi_clique c (shape0 w))
                                     (instance_components w)));
             rule_double ]
           rest).
Proof.
  rewrite compute_bi_clusters_eq.
  match goal with
  | |- context [solve_subgraphs alg w ?n ?total ?gs ?p0 ?st] =>
      destruct (solve_subgraphs_stdout alg w n total gs p0 st)
        as (printed & Hp & _);
      destruct (solve_subgraphs alg w n total gs p0 st) as [[e|p] s1]
  end; cbn [snd] in Hp |- *.
  - exists printed. rewrite Hp. cbn [add_output stdout].
    unfold preprocessing_report, trivial_bi_clusters. rewrite length_map.
    rewrite <- app_assoc. reflexivity.
  - exists (printed ++ final_report p)%list. cbn [add_output stdout].
    rewrite Hp. cbn [add_output stdout].
    unfold preprocessing_report, trivial_bi_clusters. rewrite length_map.
    rewrite <- !app_assoc. reflexivity.
Qed.


End Orchestrator.

(** C10: selecting one variant leaves the parameters of the other as they
    were: [use_ilp] sets the name, the time limit and the tuning flag and
    keeps [ch_alpha] and [ch_seed]; [use_ch] sets the name, the bias factor
    and the seed and keeps [ilp_time_limit] and [ilp_tune]. *)
Theorem selecting_keeps_other_parameters (self : Algorithm)
    (time_limit alpha : Q) (tune : bool) (seed : option Z) :
  (algorithm_name (use_ilp self time_limit tune) = "ILP"
   /\ ilp_time_limit (use_ilp self time_limit tune) = time_limit
   /\ ilp_tune (use_ilp self time_limit tune) = tune
   /\ ch_alpha (use_ilp self time_limit tune) = ch_alpha self
   /\ ch_seed (use_ilp self time_limit tune) = ch_seed self)
  /\
  (algorithm_name (use_ch self alpha seed) = "CH"
   /\ ch_alpha (use_ch self alpha seed) = alpha
   /\ ch_seed (use_ch self alpha seed) = seed
   /\ ilp_time_limit (use_ch self alpha seed) = ilp_time_limit self
   /\ ilp_tune (use_ch self alpha seed) = ilp_tune self).
Proof. repeat split. Qed.

(** ** The modelled helpers *)

Lemma concat_filter_split {A} (p : list A -> bool) (l : list (list A)) :
  Permutation (List.concat (filter p l)
                 ++ List.concat (filter (fun c => negb (p c)) l))
              (List.concat l).
Proof.
  induction l as [|c l IH]; cbn; [constructor|].
  destruct (p c); cbn.
  - rewrite <- app_assoc. now apply Permutation_app_head.
  - rewrite Permutation_app_swap_app. now apply Permutation_app_head.
Qed.

Lemma merge_classes_concat e classes :
  Permutation (List.concat (Helpers.merge_classes e classes)) (List.concat classes).
Proof.
  induction classes as [|c rest IH]; cbn; [constructor|].
  destruct (Helpers.touches e c); cbn.
  - rewrite <- app_assoc. apply Permutation_app_head, concat_filter_split.
  - now apply Permutation_app_head.
Qed.

Lemma fold_merge_classes_concat es : forall classes,
  Permutation
    (List.concat (fold_left (fun cl e => Helpers.merge_classes e cl) es classes))
    (List.concat classes).
Proof.
  induction es as [|e es IH]; intros classes; cbn; [reflexivity|].
  rewrite IH. apply merge_classes_concat.
Qed.

Lemma concat_singletons (l : list nat) : List.concat (map (fun v => [v]) l) = l.
Proof. induction l as [|v l IH]; cbn; [reflexivity|]. now rewrite IH. Qed.

Lemma nodes_induced g classes :
  flat_map nodes (map (Helpers.induced g) classes) = List.concat classes.
Proof. induction classes as [|c cl IH]; cbn; [reflexivity|]. now rewrite IH. Qed.

(** The modelled [connected_components] partitions the nodes of any graph. *)
Lemma connected_components_partition g :
  Permutation (flat_map nodes (Helpers.connected_components g)) (nodes g).
Proof.
  unfold Helpers.connected_components, Helpers.node_classes.
  rewrite nodes_induced, fold_merge_classes_concat, concat_singletons.
  reflexivity.
Qed.

(** ** Concrete instances *)

Local Abbreviation compute_with ilp ch :=
  (@compute_bi_clusters Q Q 0%Q Qplus Fixtures.str_Q nat ilp ch
     Helpers.build_graph_from_weights Helpers.connected_components
     Helpers.is_bi_clique).

Local Abbreviation start := (@State Q Q nat [] [] 0).

Local Abbreviation run_all_with ilp ch :=
  (@run_all Q Q nat ilp ch).

Local Abbreviation hard_subgraphs_of w :=
  (hard_subgraphs Helpers.build_graph_from_weights Helpers.connected_components
     Helpers.is_bi_clique w).

(** C8: on the matrix [[1, -1], [-1, 1]], with the helpers as the spec
    describes them, [compute_bi_clusters] returns the bi-clusters
    [([0], [0])] and [([1], [1])], the cost 0 and the flag [True], whatever
    the selector, the solvers and the type of the costs. *)
Theorem diagonal_instance (cost world : Type) (cost_zero : cost)
    (cost_add : cost -> cost -> cost) (str_cost : cost -> string)
    (ilp_run : weights Q -> graph -> Q -> bool -> world -> solution cost * world)
    (ch_run : weights Q -> graph -> Q -> option Z -> world -> solution cost * world)
    (alg : Algorithm) (s : state Q cost world) :
  fst (compute_bi_clusters cost_zero cost_add str_cost ilp_run ch_run
         Helpers.build_graph_from_weights Helpers.connected_components
         Helpers.is_bi_clique Fixtures.w_diag alg s)
  = inr ([([0], [0]); ([1], [1])], cost_zero, true).
Proof.
  destruct (@compute_bi_clusters_spec Q cost cost_zero cost_add str_cost world
              ilp_run ch_run Helpers.build_graph_from_weights
              Helpers.connected_components Helpers.is_bi_clique
              Fixtures.w_diag alg s [] s eq_refl) as (s' & Heq & _).
  rewrite Heq. reflexivity.
Qed.

(** The path instance with a solver that returns its input and claims
    optimality: the check raises. *)
Lemma solver_results_are_checked_witness :
  exists c s',
    Helpers.is_bi_clique c 2 = false
    /\ compute_with Fixtures.ilp_keep Fixtures.ch_drop
         Fixtures.w_path Algorithm_init start
       = (inl (Exception
                 ("Subgraph should be bi-clique but isn't."
                    ++ newline ++ "Nodes: " ++ str_nodes (nodes c)
                    ++ newline ++ "Edges: " ++ str_edges (edges c))), s').
Proof.
  destruct (@solver_results_are_checked Q Q 0%Q Qplus Fixtures.str_Q nat
              Fixtures.ilp_keep Fixtures.ch_drop
              Helpers.build_graph_from_weights Helpers.connected_components
              Helpers.is_bi_clique Fixtures.w_path Algorithm_init start
              [({| nodes := [0; 2; 3; 1]; edges := [(0, 2); (0, 3); (1, 2)] |},
                0%Q, true)]
              (snd (run_all_with Fixtures.ilp_keep Fixtures.ch_drop
                      Algorithm_init Fixtures.w_path
                      (hard_subgraphs_of Fixtures.w_path) start)))
    as [H _].
  - vm_compute. reflexivity.
  - destruct H as (c & s' & _ & Hbad & _ & Heq).
    + exists {| nodes := [0; 2; 3; 1]; edges := [(0, 2); (0, 3); (1, 2)] |}.
      split; [left; reflexivity|reflexivity].
    + exists c, s'. split; [exact Hbad|exact Heq].
Defined.

(** The path instance with the edge-deleting solver: one hard subgraph,
    whose flag [False] is the flag returned. *)
Lemma optimality_is_conjunction_witness :
  exists results s2,
    run_all_with Fixtures.ilp_drop Fixtures.ch_drop Algorithm_init
      Fixtures.w_path (hard_subgraphs_of Fixtures.w_path) start
    = (inr results, s2)
    /\ false = forallb (@sol_is_optimal Q) results.
Proof.
  destruct (@optimality_is_conjunction Q Q 0%Q Qplus Fixtures.str_Q nat
              Fixtures.ilp_drop Fixtures.ch_drop
              Helpers.build_graph_from_weights Helpers.connected_components
              Helpers.is_bi_clique Fixtures.w_path Algorithm_init start
              [([0], []); ([], [0]); ([], [1]); ([1], [])] 3%Q false
              (snd (compute_with Fixtures.ilp_drop Fixtures.ch_drop
                      Fixtures.w_path Algorithm_init start)))
    as (_ & results & s2 & Hall & Hopt & _).
  - vm_compute. reflexivity.
  - exists results, s2. split; [exact Hall|exact Hopt].
Defined.

(** The same run: the cost 3 of the three deleted edges is the cost
    returned. *)
Lemma objective_is_sum_witness :
  exists results s2,
    run_all_with Fixtures.ilp_drop Fixtures.ch_drop Algorithm_init
      Fixtures.w_path (hard_subgraphs_of Fixtures.w_path) start
    = (inr results, s2)
    /\ 3%Q = fold_left Qplus (map (@sol_cost Q) results) 0%Q.
Proof.
  destruct (@objective_is_sum Q Q 0%Q Qplus Fixtures.str_Q nat
              Fixtures.ilp_drop Fixtures.ch_drop
              Helpers.build_graph_from_weights Helpers.connected_components
              Helpers.is_bi_clique Fixtures.w_path Algorithm_init start
              [([0], []); ([], [0]); ([], [1]); ([1], [])] 3%Q false
              (snd (compute_with Fixtures.ilp_drop Fixtures.ch_drop
                      Fixtures.w_path Algorithm_init start)))
    as (_ & results & s2 & Hall & Hobj & _).
  - vm_compute. reflexivity.
  - exists results, s2. split; [exact Hall|exact Hobj].
Defined.

(** The lone row and the lone column of [[-1]], with a selector whose name
    is invalid: both components are bi-cliques and nothing is solved. *)
Lemma all_bi_cliques_witness :
  exists s',
    compute_with Fixtures.ilp_drop Fixtures.ch_drop
      Fixtures.w_lone Fixtures.bad_algorithm start
    = (inr ([([0], []); ([], [0])], 0%Q, true), s')
    /\ calls s' = [] /\ env s' = 0.
Proof.
  apply (@all_bi_cliques Q Q 0%Q Qplus Fixtures.str_Q nat
           Fixtures.ilp_drop Fixtures.ch_drop
           Helpers.build_graph_from_weights Helpers.connected_components
           Helpers.is_bi_clique Fixtures.w_lone Fixtures.bad_algorithm start).
  intros c Hc. vm_compute in Hc.
  destruct Hc as [<-|[<-|[]]]; reflexivity.
Defined.

(** The path instance with the edge-deleting solver: the four singletons
    it leaves cover the rows 0, 1 and the columns 0, 1. *)
Lemma bi_clusters_partition_indices_witness :
  Permutation (flat_map fst [([0], []); ([], [0]); ([], [1]); ([1], [])]) [0; 1]
  /\ Permutation (flat_map snd [([0], []); ([], [0]); ([], [1]); ([1], [])])
                 [0; 1].
Proof.
  destruct (@bi_clusters_partition_indices Q Q 0%Q Qplus Fixtures.str_Q nat
              Fixtures.ilp_drop Fixtures.ch_drop
              Helpers.build_graph_from_weights Helpers.connected_components
              Helpers.is_bi_clique Fixtures.w_path Algorithm_init start
              [([0], []); ([], [0]); ([], [1]); ([1], [])] 3%Q false
              (snd (compute_with Fixtures.ilp_drop Fixtures.ch_drop
                      Fixtures.w_path Algorithm_init start)))
    as (Hrows & Hcols & _).
  - exact connected_components_partition.
  - reflexivity.
  - intros w g t tune e. reflexivity.
  - intros w g alpha seed e. reflexivity.
  - vm_compute. reflexivity.
  - split; [exact Hrows|exact Hcols].
Defined.

(** C6 fails as stated: on the diagonal instance nothing has to be solved,
    and a selector with an invalid name goes unnoticed. *)
Lemma invalid_name_not_always_an_error :
  ~ (forall (w : weights Q) (alg : Algorithm) (s : state Q Q nat),
       algorithm_name alg <> "ILP" ->
       algorithm_name alg <> "CH" ->
       exists e s',
         compute_with Fixtures.ilp_drop Fixtures.ch_drop w alg s = (inl e, s')).
Proof.
  intros H.
  assert (Hname1 : algorithm_name Fixtures.bad_algorithm <> "ILP") by discriminate.
  assert (Hname2 : algorithm_name Fixtures.bad_algorithm <> "CH") by discriminate.
  destruct (H Fixtures.w_diag Fixtures.bad_algorithm start Hname1 Hname2)
    as (e & s' & Heq).
  vm_compute in Heq. discriminate.
Qed.

(** The path instance with the name [XYZ]. *)
Lemma invalid_name_with_hard_subgraph_witness :
  exists s',
    compute_with Fixtures.ilp_drop Fixtures.ch_drop
      Fixtures.w_path Fixtures.bad_algorithm start
    = (inl (Exception
              ("Invalid algorithm name " ++ quote ++ "XYZ" ++ quote
                 ++ ". Options: " ++ quote ++ "ILP" ++ quote ++ ", "
                 ++ quote ++ "CH" ++ quote ++ ".")), s')
    /\ calls s' = [] /\ env s' = 0.
Proof.
  apply (@invalid_name_with_hard_subgraph Q Q 0%Q Qplus Fixtures.str_Q nat
           Fixtures.ilp_drop Fixtures.ch_drop
           Helpers.build_graph_from_weights Helpers.connected_components
           Helpers.is_bi_clique Fixtures.w_path Fixtures.bad_algorithm start).
  - discriminate.
  - discriminate.
  - vm_compute. discriminate.
Defined.

(** [run] after [use_ilp(30, True)] and after [use_ch(0.5, 7)]. *)
Lemma run_dispatch_witness :
    fst (@run Q Q nat Fixtures.ilp_drop Fixtures.ch_keep
           (use_ilp Algorithm_init 30 true) Fixtures.w_path Fixtures.g_path start)
    = inr (fst (Fixtures.drop_edges Fixtures.w_path Fixtures.g_path 0))
    /\ fst (@run Q Q nat Fixtures.ilp_drop Fixtures.ch_keep
              (use_ch Algorithm_init (1 # 2) (Some 7%Z)) Fixtures.w_path Fixtures.g_path start)
       = inr (fst (Fixtures.keep_all Fixtures.w_path Fixtures.g_path 0)).
Proof.
  split.
  - rewrite (proj1 (@run_dispatch Q Q nat Fixtures.ilp_drop Fixtures.ch_keep
                      (use_ilp Algorithm_init 30 true) Fixtures.w_path Fixtures.g_path start)
               eq_refl).
    reflexivity.
  - rewrite (proj2 (@run_dispatch Q Q nat Fixtures.ilp_drop Fixtures.ch_keep
                      (use_ch Algorithm_init (1 # 2) (Some 7%Z)) Fixtures.w_path
                      Fixtures.g_path start)
               eq_refl).
    reflexivity.
Defined.

(** ** Further properties: the selector's setters and the serializer *)

(** X2: the setters compose by overwriting: the last [use_ilp] decides
    the time limit and the tuning flag, the last [use_ch] the bias factor
    and the seed, and the last call of either the name.  Once both have been
    called nothing of the initial object is left, and the two orders differ
    in the name only; selecting a variant again with the default arguments
    resets its parameters to the defaults. *)
Theorem selections_compose (self : Algorithm) (t1 t2 a1 a2 : Q)
    (tu1 tu2 : bool) (sd1 sd2 : option Z) :
  use_ilp (use_ilp self t1 tu1) t2 tu2 = use_ilp self t2 tu2
  /\ use_ch (use_ch self a1 sd1) a2 sd2 = use_ch self a2 sd2
  /\ use_ch (use_ilp self t1 tu1) a1 sd1 = MkAlgorithm "CH" t1 tu1 a1 sd1
  /\ use_ilp (use_ch self a1 sd1) t1 tu1 = MkAlgorithm "ILP" t1 tu1 a1 sd1
  /\ use_ilp_default (use_ch (use_ilp self t1 tu1) a1 sd1)
     = MkAlgorithm "ILP" 60 false a1 sd1
  /\ use_ch_default (use_ilp (use_ch self a1 sd1) t1 tu1)
     = MkAlgorithm "CH" t1 tu1 1 None.
Proof. repeat split. Qed.

(** X12: if the file can be opened for writing, [save_bi_clusters_as_xml]
    leaves in it exactly the prettified element tree of its arguments,
    whatever the file held before, and no other file changes; if it cannot
    be opened, the error of [open] is raised and nothing is written. *)
Theorem saved_file_holds_the_document (cost element : Type)
    (build_element_tree : list bi_cluster -> cost -> bool -> string -> element)
    (prettify : element -> string)
    (filename : string) (bcs : list bi_cluster) (obj : cost) (opt : bool)
    (instance : string) (fs : file_system) :
  (can_open fs filename = true ->
   exists fs',
     save_bi_clusters_as_xml build_element_tree prettify
       filename bcs obj opt instance fs = inr fs'
     /\ contents fs' filename
          = Some (prettify (build_element_tree bcs obj opt instance))
     /\ (forall f, f <> filename -> contents fs' f = contents fs f)
     /\ (forall f, can_open fs' f = can_open fs f))
  /\
  (can_open fs filename = false ->
   save_bi_clusters_as_xml build_element_tree prettify
     filename bcs obj opt instance fs = inl (OSError filename)).
Proof.
  unfold save_bi_clusters_as_xml, open_w. split; intros H; rewrite H.
  - eexists. split; [reflexivity|].
    unfold file_write. cbn [set_contents contents can_open].
    rewrite String.eqb_refl. cbn [set_contents contents can_open].
    rewrite String.eqb_refl. split; [reflexivity|]. split; [|reflexivity].
    intros f Hf. apply String.eqb_neq in Hf. now rewrite Hf.
  - reflexivity.
Qed.

(** The components of a graph without edges are single nodes, and a single
    node is a bi-clique. *)
Lemma isolated_nodes_are_bi_cliques (l : list nat) (num_rows : nat) (c : graph) :
  In c (Helpers.connected_components {| nodes := l; edges := [] |}) ->
  Helpers.is_bi_clique c num_rows = true.
Proof.
  unfold Helpers.connected_components, Helpers.node_classes. cbn [edges nodes fold_left].
  rewrite map_map. intros H. apply in_map_iff in H as (v & <- & _).
  unfold Helpers.is_bi_clique, Helpers.induced.
  cbn [nodes edges filter forallb].
  unfold Helpers.is_row, Helpers.is_col.
  destruct (Nat.ltb_spec v num_rows), (Nat.leb_spec num_rows v);
    cbn; try reflexivity; lia.
Qed.

(** The name [ilp] is not [ILP]. *)
Lemma run_rejects_other_names_witness :
  @run Q Q nat Fixtures.ilp_drop Fixtures.ch_drop
    Fixtures.lower_case_algorithm Fixtures.w_path Fixtures.g_path start
  = (inl (Exception
            ("Invalid algorithm name " ++ quote ++ "ilp" ++ quote
               ++ ". Options: " ++ quote ++ "ILP" ++ quote ++ ", "
               ++ quote ++ "CH" ++ quote ++ ".")), start).
Proof.
  apply (@run_rejects_other_names Q Q nat Fixtures.ilp_drop Fixtures.ch_drop
           Fixtures.lower_case_algorithm Fixtures.w_path Fixtures.g_path start);
    discriminate.
Defined.


(** The edge-deleting solvers keep their contract on every subgraph. *)
Lemma honest_solvers_never_abort_witness :
  exists bcs obj opt s',
    compute_with Fixtures.ilp_drop Fixtures.ch_drop
      Fixtures.w_two_paths Algorithm_init start
    = (inr (bcs, obj, opt), s').
Proof.
  apply (@honest_solvers_never_abort Q Q 0%Q Qplus Fixtures.str_Q nat
           Fixtures.ilp_drop Fixtures.ch_drop
           Helpers.build_graph_from_weights Helpers.connected_components
           Helpers.is_bi_clique Fixtures.w_two_paths Algorithm_init start).
  - left. reflexivity.
  - intros g t tune e c Hc. eapply isolated_nodes_are_bi_cliques, Hc.
  - intros g alpha seed e c Hc. eapply isolated_nodes_are_bi_cliques, Hc.
Defined.

(** Two hard subgraphs and a solver that returns its input: the first
    result fails the check and the second subgraph is never solved. *)
Lemma abort_skips_remaining_subgraphs_witness :
  exists c s',
    compute_with Fixtures.ilp_keep Fixtures.ch_drop
      Fixtures.w_two_paths Algorithm_init start
    = (inl (Exception (not_bi_clique_msg c)), s')
    /\ List.length (hard_subgraphs_of Fixtures.w_two_paths) = 2
    /\ List.length (calls s') = 1.
Proof.
  destruct (@abort_skips_remaining_subgraphs Q Q 0%Q Qplus Fixtures.str_Q nat
              Fixtures.ilp_keep Fixtures.ch_drop
              Helpers.build_graph_from_weights Helpers.connected_components
              Helpers.is_bi_clique Fixtures.w_two_paths Algorithm_init start
              []
              (hd Fixtures.g_path (hard_subgraphs_of Fixtures.w_two_paths))
              (tl (hard_subgraphs_of Fixtures.w_two_paths))
              [] start
              (hd Fixtures.g_path (hard_subgraphs_of Fixtures.w_two_paths),
               0%Q, true)
              (snd (@run Q Q nat Fixtures.ilp_keep Fixtures.ch_drop Algorithm_init
                      Fixtures.w_two_paths
                      (hd Fixtures.g_path (hard_subgraphs_of Fixtures.w_two_paths))
                      start)))
    as (c & s' & _ & _ & Heq & Hcalls & _).
  - vm_compute. reflexivity.
  - reflexivity.
  - reflexivity.
  - vm_compute. reflexivity.
  - exists (hd Fixtures.g_path (hard_subgraphs_of Fixtures.w_two_paths)).
    split; [left|]; vm_compute; reflexivity.
  - exists c, s'. split; [exact Heq|]. split; [vm_compute; reflexivity|].
    rewrite Hcalls. vm_compute. reflexivity.
Defined.

(** Two hard subgraphs and the default selector: two calls of the exact
    solver, one per subgraph, in order. *)
Lemma each_hard_subgraph_is_solved_once_witness :
  exists results,
    List.length results = 2
    /\ calls (snd (compute_with Fixtures.ilp_drop Fixtures.ch_drop
                     Fixtures.w_two_paths Algorithm_init start))
       = map (fun gr => CallILP Fixtures.w_two_paths (fst gr) 60 false (snd gr))
             (combine (hard_subgraphs_of Fixtures.w_two_paths) results).
Proof.
  assert (H : exists bcs obj opt,
             compute_with Fixtures.ilp_drop Fixtures.ch_drop
               Fixtures.w_two_paths Algorithm_init start
             = (inr (bcs, obj, opt),
                snd (compute_with Fixtures.ilp_drop Fixtures.ch_drop
                       Fixtures.w_two_paths Algorithm_init start))).
  { do 3 eexists. lazy. reflexivity. }
  destruct H as (bcs & obj & opt & H).
  destruct (@each_hard_subgraph_is_solved_once Q Q 0%Q Qplus Fixtures.str_Q nat
              Fixtures.ilp_drop Fixtures.ch_drop
              Helpers.build_graph_from_weights Helpers.connected_components
              Helpers.is_bi_clique Fixtures.w_two_paths Algorithm_init start
              bcs obj opt _ H)
    as (results & Hlen & Hilp & _).
  exists results. split; [exact Hlen|]. exact (Hilp eq_refl).
Defined.


(** The path instance with the edge-deleting solver: the four bi-clusters
    come from the four single nodes the solver leaves. *)
Lemma every_bi_cluster_passed_the_check_witness :
  exists results s2,
    run_all_with Fixtures.ilp_drop Fixtures.ch_drop Algorithm_init
      Fixtures.w_path (hard_subgraphs_of Fixtures.w_path) start
    = (inr results, s2)
    /\ [([0], []); ([], [0]); ([], [1]); ([1], [])]
       = map (fun c => (rows_of 2 c, cols_of 2 c))
             (filter (fun c => Helpers.is_bi_clique c 2)
                     (instance_components Helpers.build_graph_from_weights
                        Helpers.connected_components Fixtures.w_path)
                ++ returned_components Helpers.connected_components results)%list.
Proof.
  destruct (@every_bi_cluster_passed_the_check Q Q 0%Q Qplus Fixtures.str_Q nat
              Fixtures.ilp_drop Fixtures.ch_drop
              Helpers.build_graph_from_weights Helpers.connected_components
              Helpers.is_bi_clique Fixtures.w_path Algorithm_init start
              [([0], []); ([], [0]); ([], [1]); ([1], [])] 3%Q false
              (snd (compute_with Fixtures.ilp_drop Fixtures.ch_drop
                      Fixtures.w_path Algorithm_init start)))
    as (results & s2 & Hall & Hbcs & _).
  - vm_compute. reflexivity.
  - exists results, s2. split; [exact Hall|exact Hbcs].
Defined.

(** Saving over an existing file replaces its text and leaves the other
    names alone; a name that cannot be opened gives the error. *)
Lemma saved_file_holds_the_document_witness :
  (exists fs',
     save_bi_clusters_as_xml Fixtures.tree_of Fixtures.text_of
       "old.xml" [([0], [0])] 0%Q true "demo" Fixtures.one_file = inr fs'
     /\ contents fs' "old.xml" = Some "demo: 0/1 True")
  /\ save_bi_clusters_as_xml Fixtures.tree_of Fixtures.text_of
       "locked" [([0], [0])] 0%Q true "demo" Fixtures.one_file
     = inl (OSError "locked").
Proof.
  split.
  - destruct (proj1 (@saved_file_holds_the_document Q _
                       Fixtures.tree_of Fixtures.text_of
                       "old.xml" [([0], [0])] 0%Q true "demo" Fixtures.one_file)
                eq_refl)
      as (fs' & Heq & Hc & _).
    exists fs'. split; [exact Heq|exact Hc].
  - exact (proj2 (@saved_file_holds_the_document Q _
                    Fixtures.tree_of Fixtures.text_of
                    "locked" [([0], [0])] 0%Q true "demo" Fixtures.one_file)
             eq_refl).
Defined.
